(** * QCoro's QFuture adapter (qcoro/core/qcorofuture.h)

    A shallow embedding of [QCoro::detail::QCoroFuture<T>]: the awaiter core
    [WaitForFinishedOperationBase], its three result-extraction variants and
    the three coroutine entry points, together with the properties the
    specification states about them. *)

From Stdlib Require Import String List Bool Arith Lia.
From stdpp Require Import base option list gmap.
Import ListNotations.

Set Implicit Arguments.
Set Default Proof Using "Type".

(** ** Exceptions and completions *)

(** What a C++ call can throw here: a [std::runtime_error] raised by the
    adapter itself, or the exception the producer stored in the future. *)
Inductive exception (E : Type) : Type :=
| runtime_error (what : string)
| stored (e : E).
Arguments runtime_error {E} what.
Arguments stored {E} e.

(** The two messages the adapter throws, lines 70/115 and 82/127. *)
Definition ResultNotReady {E} : exception E :=
  runtime_error "QFuture finished without a result".
Definition InvalidOrCanceled {E} : exception E :=
  runtime_error "QFuture was invalid or canceled".

(** How a call ends: it returns, it throws, it blocks waiting for the
    producer, or it was made outside the collaborator's contract. *)
Inductive completion (E A : Type) : Type :=
| Returns (a : A)
| Throws (x : exception E)
| Blocks
| Undefined.
Arguments Returns {E A} a.
Arguments Throws {E A} x.
Arguments Blocks {E A}.
Arguments Undefined {E A}.

(** ** The external future *)

Module QFuture.

(** Modelled from the spec: the [QFuture<T>] class of Qt that the header
    includes but does not define.  Sections 3 and 6 of the specification
    give its states (pending, finished with a result, finished without a
    result, finished with a recorded failure, canceled) and its queries;
    the producer either fills result slots or records one failure. *)
Inductive Store (T E : Type) : Type :=
| Results (slots : gmap nat T)
| Failure (e : E).
Arguments Results {T E} slots.
Arguments Failure {T E} e.

Record t (T E : Type) : Type := Make {
  isFinished : bool;
  isCanceled : bool;
  store : Store T E
}.
Arguments Make {T E} isFinished isCanceled store.
Arguments isFinished {T E} t.
Arguments isCanceled {T E} t.
Arguments store {T E} t.

(** The calls made on the shared future, in program order. *)
Inductive Call : Type :=
| CallIsFinished
| CallIsCanceled
| CallWaitForFinished
| CallIsResultReadyAt (index : nat)
| CallResult
| CallTakeResult.

(** The adapter's [mFuture] is a handle on state shared with the producer:
    a world holds that state and the calls made on it so far. *)
Record World (T E : Type) : Type := MkWorld {
  future : t T E;
  calls : list Call
}.
Arguments MkWorld {T E} future calls.
Arguments future {T E} w.
Arguments calls {T E} w.

Section Operations.
Context {T E : Type}.

Definition slot (f : t T E) (index : nat) : option T :=
  match store f with
  | Results slots => slots !! index
  | Failure _ => None
  end.

Definition recorded_failure (f : t T E) : option E :=
  match store f with
  | Results _ => None
  | Failure e => Some e
  end.

Definition isResultReadyAt (f : t T E) (index : nat) : bool :=
  match slot f index with
  | Some _ => true
  | None => false
  end.

(** Modelled from the spec: [waitForFinished()], the bounded
    synchronization call; on a finished future its only visible effect
    is to re-raise the failure the producer recorded.  On a future that
    is not finished it waits for the producer. *)
Definition waitForFinished (f : t T E) : completion E unit :=
  if isFinished f then
    match recorded_failure f with
    | Some e => Throws (stored e)
    | None => Returns tt
    end
  else Blocks.

(** Modelled from the spec: [result()], the copying accessor, valid
    only once the future is finished and slot 0 is populated. *)
Definition result (f : t T E) : completion E T :=
  if isFinished f then
    match store f with
    | Failure e => Throws (stored e)
    | Results slots =>
        match slots !! 0 with
        | Some v => Returns v
        | None => Undefined
        end
    end
  else Blocks.

(** Modelled from the spec: [takeResult()], the take-semantics accessor;
    it moves the result out of slot 0, which is left empty. *)
Definition takeResult (f : t T E) : completion E T * t T E :=
  if isFinished f then
    match store f with
    | Failure e => (Throws (stored e), f)
    | Results slots =>
        match slots !! 0 with
        | Some v =>
            (Returns v,
             Make (isFinished f) (isCanceled f) (Results (delete 0 slots)))
        | None => (Undefined, f)
        end
    end
  else (Blocks, f).
End Operations.

End QFuture.

(** ** Calls on the shared future, sequenced *)

Module Fut.
Import QFuture.

Section Monad.
Context {T E : Type}.

(** A computation over the shared future that may throw. *)
Definition M (A : Type) : Type := World T E -> completion E A * World T E.

Definition ret {A} (a : A) : M A := fun w => (Returns a, w).

Definition throw {A} (x : exception E) : M A := fun w => (Throws x, w).

Definition bind {A B} (c : M A) (k : A -> M B) : M B :=
  fun w =>
    match c w with
    | (Returns a, w') => k a w'
    | (Throws x, w') => (Throws x, w')
    | (Blocks, w') => (Blocks, w')
    | (Undefined, w') => (Undefined, w')
    end.

Definition record (c : Call) (w : World T E) : World T E :=
  MkWorld (future w) (calls w ++ [c]).

(** A const query of the future. *)
Definition query {A} (c : Call) (q : QFuture.t T E -> A) : M A :=
  fun w => (Returns (q (future w)), record c w).

Definition isFinished : M bool := query CallIsFinished QFuture.isFinished.
Definition isCanceled : M bool := query CallIsCanceled QFuture.isCanceled.
Definition isResultReadyAt (index : nat) : M bool :=
  query (CallIsResultReadyAt index) (fun f => QFuture.isResultReadyAt f index).

Definition waitForFinished : M unit :=
  fun w => (QFuture.waitForFinished (future w), record CallWaitForFinished w).

Definition result : M T :=
  fun w => (QFuture.result (future w), record CallResult w).

Definition takeResult : M T :=
  fun w =>
    let (r, f') := QFuture.takeResult (future w) in
    (r, MkWorld f' (calls w ++ [CallTakeResult])).

(** A computation that only queries the future. *)
Definition read_only {A} (c : M A) : Prop :=
  forall w, future (snd (c w)) = future w.
End Monad.

End Fut.

Declare Scope fut_scope.
Delimit Scope fut_scope with fut.
Notation "'let*' x ':=' c 'in' k" := (Fut.bind c (fun x => k))
  (at level 10, x name, c at level 100, k at level 200) : fut_scope.

(** ** Result types

    What the templates ask of [T]: [std::is_void_v<T>] and
    [std::is_default_constructible_v<T>], with the value [T{}] when there is
    one. *)
Inductive ResultType : Type :=
| Void
| Value (T : Type) (default : option T).
Arguments Value T default : clear implicits.

Definition carrier (ty : ResultType) : Type :=
  match ty with
  | Void => unit
  | Value T _ => T
  end.

Definition is_void_v (ty : ResultType) : bool :=
  match ty with
  | Void => true
  | Value _ _ => false
  end.

Definition is_default_constructible_v (ty : ResultType) : bool :=
  match ty with
  | Void => false
  | Value _ (Some _) => true
  | Value _ None => false
  end.

(** What lines 76 to 83 (and 121 to 128) do for a future that did not
    finish: [return {}] when [T] is default-constructible, throw otherwise. *)
Definition fallback {T E} (default : option T) : completion E T :=
  match default with
  | Some d => Returns d
  | None => Throws InvalidOrCanceled
  end.

(** ** The awaiter core *)

Module WaitForFinishedOperationBase.

(** The two signals of [QFutureWatcherBase] the awaiter connects to. *)
Inductive Channel : Type := SigFinished | SigCanceled.

(** What the watcher, its connections and the coroutine handle undergo. *)
Inductive Effect : Type :=
| Connect (c : Channel)
| SetFuture
| Disconnect (c : Channel)
| DeleteLater
| Resume.

(** The state [await_suspend] allocates: the atomic flag [done], the two
    connection handles [finished] and [canceled] (true while connected),
    whether the watcher is still allocated and whether its deletion has
    been scheduled, and the effects so far in order. *)
Record Suspension : Type := MkSuspension {
  done : bool;
  finished : bool;
  canceled : bool;
  watcher_alive : bool;
  watcher_deleteLater : bool;
  effects : list Effect
}.

Definition perform (e : Effect) (s : Suspension) : list Effect :=
  effects s ++ [e].

(** [std::atomic<bool>::compare_exchange_strong], one atomic step. *)
Definition compare_exchange_strong (expected desired : bool) (s : Suspension)
  : bool * Suspension :=
  if Bool.eqb (done s) expected then
    (true, MkSuspension desired (finished s) (canceled s) (watcher_alive s)
             (watcher_deleteLater s) (effects s))
  else (false, s).

Definition connection (c : Channel) (s : Suspension) : bool :=
  match c with
  | SigFinished => finished s
  | SigCanceled => canceled s
  end.

Definition connect (c : Channel) (s : Suspension) : Suspension :=
  match c with
  | SigFinished =>
      MkSuspension (done s) true (canceled s) (watcher_alive s)
        (watcher_deleteLater s) (perform (Connect c) s)
  | SigCanceled =>
      MkSuspension (done s) (finished s) true (watcher_alive s)
        (watcher_deleteLater s) (perform (Connect c) s)
  end.

Definition disconnect (c : Channel) (s : Suspension) : Suspension :=
  match c with
  | SigFinished =>
      MkSuspension (done s) false (canceled s) (watcher_alive s)
        (watcher_deleteLater s) (perform (Disconnect c) s)
  | SigCanceled =>
      MkSuspension (done s) (finished s) false (watcher_alive s)
        (watcher_deleteLater s) (perform (Disconnect c) s)
  end.

(** [QObject::deleteLater]: the deletion is scheduled for the event loop,
    the object is not destroyed by the call. *)
Definition deleteLater (s : Suspension) : Suspension :=
  MkSuspension (done s) (finished s) (canceled s) (watcher_alive s) true
    (perform DeleteLater s).

Definition setFuture (s : Suspension) : Suspension :=
  MkSuspension (done s) (finished s) (canceled s) (watcher_alive s)
    (watcher_deleteLater s) (perform SetFuture s).

(** [awaitingCoroutine.resume()]. *)
Definition coroutine_resume (s : Suspension) : Suspension :=
  MkSuspension (done s) (finished s) (canceled s) (watcher_alive s)
    (watcher_deleteLater s) (perform Resume s).

(** The lambda [resume] of lines 40 to 49, run without interruption. *)
Definition resume (s : Suspension) : Suspension :=
  let (won, s) := compare_exchange_strong false true s in
  if negb won then s
  else
    let s := disconnect SigFinished s in
    let s := disconnect SigCanceled s in
    let s := deleteLater s in
    coroutine_resume s.

(** [new QFutureWatcher], the flag and the two empty connection handles. *)
Definition allocated : Suspension :=
  MkSuspension false false false true false [].

(** The state at the end of [await_suspend]: both slots connected, then
    the future handed to the watcher. *)
Definition registered : Suspension :=
  let s := allocated in
  let s := connect SigFinished s in
  let s := connect SigCanceled s in
  setFuture s.

Section Base.
Context {T E : Type}.

Definition await_ready : @Fut.M T E bool :=
  (let* fin := Fut.isFinished in
   if fin then Fut.ret true else Fut.isCanceled)%fut.

(** Lines 34 to 55; the future itself is only handed to the watcher. *)
Definition await_suspend : @Fut.M T E Suspension :=
  Fut.ret registered.
End Base.

(** The watcher emits a signal: a slot runs only through a live
    connection. *)
Definition emit (c : Channel) (s : Suspension) : Suspension :=
  if connection c s then resume s else s.

Definition is_resume (e : Effect) : bool :=
  match e with
  | Resume => true
  | _ => false
  end.

Definition resume_count (s : Suspension) : nat :=
  length (List.filter is_resume (effects s)).

End WaitForFinishedOperationBase.

(** An awaiter: the three members a [co_await] expression calls. *)
Module Awaiter.
Record t (T E A : Type) : Type := Make {
  await_ready : @Fut.M T E bool;
  await_suspend : @Fut.M T E WaitForFinishedOperationBase.Suspension;
  await_resume : @Fut.M T E A
}.
Arguments Make {T E A} await_ready await_suspend await_resume.
Arguments await_ready {T E A} t.
Arguments await_suspend {T E A} t.
Arguments await_resume {T E A} t.

(** A class that derives from [WaitForFinishedOperationBase] and adds its
    own [await_resume]. *)
Definition derived {T E A} (await_resume : @Fut.M T E A) : t T E A :=
  Make WaitForFinishedOperationBase.await_ready
    WaitForFinishedOperationBase.await_suspend await_resume.
End Awaiter.

(** ** The three extraction variants *)

Module WaitForFinishedOperationImplT.
Section ImplT.
Context {T E : Type} (default : option T).

Definition await_resume : @Fut.M T E T :=
  (let* fin := Fut.isFinished in
   if fin then
     let* _ := Fut.waitForFinished in
     let* ready := Fut.isResultReadyAt 0 in
     if negb ready then Fut.throw ResultNotReady
     else Fut.result
   else
     match default with
     | Some d => Fut.ret d
     | None => Fut.throw InvalidOrCanceled
     end)%fut.

Definition awaiter : Awaiter.t T E T := Awaiter.derived await_resume.
End ImplT.
End WaitForFinishedOperationImplT.

Module WaitForFinishedOperationImplVoid.
Section ImplVoid.
Context {E : Type}.

Definition await_resume : @Fut.M unit E unit :=
  (let* fin := Fut.isFinished in
   if fin then Fut.waitForFinished else Fut.ret tt)%fut.

Definition awaiter : Awaiter.t unit E unit := Awaiter.derived await_resume.
End ImplVoid.
End WaitForFinishedOperationImplVoid.

Module TakeResultOperation.
Section Take.
Context {T E : Type} (default : option T).

Definition await_resume : @Fut.M T E T :=
  (let* fin := Fut.isFinished in
   if fin then
     let* _ := Fut.waitForFinished in
     let* ready := Fut.isResultReadyAt 0 in
     if negb ready then Fut.throw ResultNotReady
     else Fut.takeResult
   else
     match default with
     | Some d => Fut.ret d
     | None => Fut.throw InvalidOrCanceled
     end)%fut.

Definition awaiter : Awaiter.t T E T := Awaiter.derived await_resume.
End Take.
End TakeResultOperation.

(** ** Racing invocations of the lambda

    The signals may reach the lambda from several execution contexts.  Each
    invocation is a thread with a program counter; the statements of the
    lambda are the atomic steps, and a schedule interleaves them. *)

Module Race.
Import WaitForFinishedOperationBase.

Inductive pc : Type :=
| AtCompareExchange
| AtDisconnectFinished
| AtDisconnectCanceled
| AtDeleteLater
| AtResume
| Returned (won : bool).

Definition step (p : pc) (s : Suspension) : pc * Suspension :=
  match p with
  | AtCompareExchange =>
      let (won, s') := compare_exchange_strong false true s in
      if negb won then (Returned false, s') else (AtDisconnectFinished, s')
  | AtDisconnectFinished => (AtDisconnectCanceled, disconnect SigFinished s)
  | AtDisconnectCanceled => (AtDeleteLater, disconnect SigCanceled s)
  | AtDeleteLater => (AtResume, deleteLater s)
  | AtResume => (Returned true, coroutine_resume s)
  | Returned won => (Returned won, s)
  end.

Record Config : Type := MkConfig {
  shared : Suspension;
  threads : list pc
}.

(** Thread [i] takes its next step; a thread that does not exist or has
    returned leaves the configuration as it is. *)
Definition schedule (i : nat) (c : Config) : Config :=
  match threads c !! i with
  | Some p =>
      let (p', s') := step p (shared c) in
      MkConfig s' (<[i := p']> (threads c))
  | None => c
  end.

Definition run (sched : list nat) (c : Config) : Config :=
  fold_left (fun c i => schedule i c) sched c.

(** [n] invocations of the lambda, none of which has started. *)
Definition start (n : nat) (s : Suspension) : Config :=
  MkConfig s (replicate n AtCompareExchange).

Definition returned (p : pc) : bool :=
  match p with
  | Returned _ => true
  | _ => false
  end.

Definition all_returned (c : Config) : bool := forallb returned (threads c).

Definition has_won (p : pc) : bool :=
  match p with
  | Returned true => true
  | _ => false
  end.

Definition winners (c : Config) : nat :=
  length (List.filter has_won (threads c)).

(** Every thread in turn runs the five statements of the lambda. *)
Definition one_after_another (n : nat) : list nat :=
  flat_map (fun i => replicate 5 i) (seq 0 n).

(** The statements a winner runs after its compare-exchange. *)
Definition teardown_then_resume : list Effect :=
  [Disconnect SigFinished; Disconnect SigCanceled; DeleteLater; Resume].

(** How many of them a thread at [p] has run, when it is the winner. *)
Definition progress (p : pc) : option nat :=
  match p with
  | AtDisconnectFinished => Some 0
  | AtDisconnectCanceled => Some 1
  | AtDeleteLater => Some 2
  | AtResume => Some 3
  | Returned true => Some 4
  | AtCompareExchange | Returned false => None
  end.

(** The shared state once the winner has run [k] of them. *)
Definition after (k : nat) (s : Suspension) : Suspension :=
  let s0 := snd (compare_exchange_strong false true s) in
  let s1 := disconnect SigFinished s0 in
  let s2 := disconnect SigCanceled s1 in
  let s3 := deleteLater s2 in
  match k with
  | 0 => s0
  | 1 => s1
  | 2 => s2
  | 3 => s3
  | _ => coroutine_resume s3
  end.

(** How many statements of the lambda a thread at [p] has left at most. *)
Definition remaining (p : pc) : nat :=
  match p with
  | AtCompareExchange => 5
  | AtDisconnectFinished => 4
  | AtDisconnectCanceled => 3
  | AtDeleteLater => 2
  | AtResume => 1
  | Returned _ => 0
  end.

(** What holds of every configuration reached from [start n s]: either
    no thread has run yet, or exactly one thread has won the
    compare-exchange, the shared state is where that thread has brought
    it, and every other thread has not started or has lost. *)
Definition invariant (s : Suspension) (c : Config) : Prop :=
  (shared c = s /\ Forall (eq AtCompareExchange) (threads c))
  \/ (exists i p k,
        threads c !! i = Some p
        /\ progress p = Some k
        /\ shared c = after k s
        /\ forall j q, j <> i -> threads c !! j = Some q ->
             q = AtCompareExchange \/ q = Returned false).

End Race.

(** ** A coroutine awaiting the future *)

Module Coroutine.
Import QFuture WaitForFinishedOperationBase.

Section Run.
Context {T E A : Type}.

(** What happens around the awaiting coroutine: the producer changes
    the shared future, or the watcher emits one of its signals. *)
Inductive Event : Type :=
| Produce (f : QFuture.t T E)
| Emit (c : Channel).

(** [co_await aw] up to the suspension point: the coroutine either goes
    straight on with the value of [await_resume], or suspends. *)
Definition co_await (aw : Awaiter.t T E A) : @Fut.M T E (Suspension + A) :=
  (let* ready := Awaiter.await_ready aw in
   if ready then
     let* v := Awaiter.await_resume aw in Fut.ret (inr v)
   else
     let* s := Awaiter.await_suspend aw in Fut.ret (inl s))%fut.

Record State : Type := MkState {
  world : World T E;
  suspension : option Suspension;
  outcome : option (completion E A)
}.

Definition begin (aw : Awaiter.t T E A) (w : World T E) : State :=
  match co_await aw w with
  | (Returns (inl s), w') => MkState w' (Some s) None
  | (Returns (inr v), w') => MkState w' None (Some (Returns v))
  | (Throws x, w') => MkState w' None (Some (Throws x))
  | (Blocks, w') => MkState w' None (Some Blocks)
  | (Undefined, w') => MkState w' None (Some Undefined)
  end.

(** A signal runs the lambda through its connection; when the lambda
    resumes the coroutine, the coroutine goes on with [await_resume]. *)
Definition deliver (aw : Awaiter.t T E A) (ev : Event) (st : State) : State :=
  match ev with
  | Produce f =>
      MkState (MkWorld f (calls (world st))) (suspension st) (outcome st)
  | Emit c =>
      match suspension st with
      | None => st
      | Some s =>
          let s' := emit c s in
          if resume_count s <? resume_count s' then
            let (r, w') := Awaiter.await_resume aw (world st) in
            MkState w' (Some s') (Some r)
          else MkState (world st) (Some s') (outcome st)
      end
  end.

Definition run (aw : Awaiter.t T E A) (w : World T E) (evs : list Event)
  : State :=
  fold_left (fun st ev => deliver aw ev st) evs (begin aw w).

(** How often [awaitingCoroutine.resume()] was called. *)
Definition resumptions (st : State) : nat :=
  match suspension st with
  | Some s => resume_count s
  | None => 0
  end.

Definition suspended (st : State) : bool :=
  match suspension st with
  | Some _ => true
  | None => false
  end.

Definition is_emit (ev : Event) : bool :=
  match ev with
  | Emit _ => true
  | Produce _ => false
  end.
End Run.
Arguments Event : clear implicits.
Arguments State : clear implicits.

End Coroutine.

(** ** The entry points *)

Module QCoroFuture.
Import QFuture.

Section Entry.
Context {E : Type}.

(** [std::conditional_t<std::is_void_v<T>, ...ImplVoid, ...ImplT>]. *)
Definition WaitForFinishedOperation (ty : ResultType)
  : Awaiter.t (carrier ty) E (carrier ty) :=
  match ty with
  | Void => WaitForFinishedOperationImplVoid.awaiter
  | Value T default => WaitForFinishedOperationImplT.awaiter default
  end.

(** A [Task<T>] whose body is [co_return co_await aw]. *)
Definition Task (ty : ResultType) : Type :=
  World (carrier ty) E -> list (Coroutine.Event (carrier ty) E) ->
  Coroutine.State (carrier ty) E (carrier ty).

Definition waitForFinished (ty : ResultType) : Task ty :=
  Coroutine.run (WaitForFinishedOperation ty).

Definition result (ty : ResultType) : Task ty :=
  Coroutine.run (WaitForFinishedOperation ty).

(** Compiled from Qt 6 on, and only for a [T] that is not [void]. *)
Definition takeResult (QT_VERSION_MAJOR : nat) (ty : ResultType)
  : option (Task ty) :=
  if 6 <=? QT_VERSION_MAJOR then
    match ty with
    | Void => None
    | Value T default =>
        Some (Coroutine.run (TakeResultOperation.awaiter default))
    end
  else None.
End Entry.

End QCoroFuture.

(** ** Futures used as concrete inputs *)

Module Examples.
Import QFuture.

(** An integer future finished with the value 42. *)
Definition finished_42 : QFuture.t nat string :=
  QFuture.Make true false (Results {[0 := 42]}).

(** A future whose producer has not finished yet. *)
Definition pending : QFuture.t nat string :=
  QFuture.Make false false (Results ∅).

(** A future canceled before it finished. *)
Definition canceled_unfinished : QFuture.t nat string :=
  QFuture.Make false true (Results ∅).

(** A future that reports finished although no slot is populated. *)
Definition finished_empty : QFuture.t nat string :=
  QFuture.Make true false (Results ∅).

(** A future whose producer threw: the failure is recorded, the future
    is canceled and finished. *)
Definition finished_failed : QFuture.t nat string :=
  QFuture.Make true true (Failure "boom"%string).

Definition void_failed : QFuture.t unit string :=
  QFuture.Make true true (Failure "boom"%string).

Definition void_finished : QFuture.t unit string :=
  QFuture.Make true false (Results ∅).

Definition void_canceled : QFuture.t unit string :=
  QFuture.Make false true (Results ∅).

Definition void_pending : QFuture.t unit string :=
  QFuture.Make false false (Results ∅).

(** An integer future finished with the value 7. *)
Definition finished_7 : QFuture.t nat string :=
  QFuture.Make true false (Results {[0 := 7]}).

Definition fresh {T} (f : QFuture.t T string) : World T string :=
  MkWorld f [].
End Examples.

(** ** The producer's side of an await *)

Module Producer.

(** The future as the producer last left it in the course of [evs]. *)
Definition latest {T E} (f : QFuture.t T E)
  (evs : list (Coroutine.Event T E)) : QFuture.t T E :=
  fold_left
    (fun f ev =>
       match ev with
       | Coroutine.Produce f' => f'
       | Coroutine.Emit _ => f
       end)
    evs f.

End Producer.

(** ** Invocations that do nothing *)

Module Latch.

(** A thread that has not started, or that has lost the compare-exchange
    and returned. *)
Definition idle (p : Race.pc) : Prop :=
  p = Race.AtCompareExchange \/ p = Race.Returned false.

End Latch.

(** * Properties *)

Unset Implicit Arguments.

(** ** The ready-check *)

Section ReadyCheck.
Import QFuture WaitForFinishedOperationBase.
Context {T E : Type}.

Lemma await_ready_spec (w : World T E) :
  await_ready w
  = (Returns (isFinished (future w) || isCanceled (future w)),
     MkWorld (future w)
       (calls w ++ (if isFinished (future w) then [CallIsFinished]
                    else [CallIsFinished; CallIsCanceled]))).
Proof.
  unfold await_ready, Fut.bind, Fut.isFinished, Fut.isCanceled, Fut.query,
    Fut.ret, Fut.record.
  destruct w as [f cs]; simpl.
  destruct (isFinished f); simpl; [reflexivity|].
  by rewrite <- app_assoc.
Qed.

Lemma await_suspend_spec (w : World T E) :
  await_suspend w = (Returns registered, w).
Proof. reflexivity. Qed.
End ReadyCheck.

Section NoSuspension.
Import QFuture WaitForFinishedOperationBase Coroutine.
Context {T E A : Type}.
Implicit Types (aw : Awaiter.t T E A) (st : State T E A).

Lemma deliver_without_suspension aw ev st :
  suspension st = None ->
  suspension (deliver aw ev st) = None
  /\ outcome (deliver aw ev st) = outcome st.
Proof.
  intros Hs. destruct ev as [f|c]; simpl; [done|].
  by rewrite Hs.
Qed.

Lemma run_without_suspension aw evs st :
  suspension st = None ->
  let st' := fold_left (fun st ev => deliver aw ev st) evs st in
  suspension st' = None /\ outcome st' = outcome st.
Proof.
  revert st. induction evs as [|ev evs IH]; intros st Hs; simpl; [done|].
  destruct (deliver_without_suspension aw ev st Hs) as [Hs' Ho].
  destruct (IH _ Hs') as [IH1 IH2]. split; [done|]. by rewrite IH2.
Qed.

Lemma begin_ready (extract : @Fut.M T E A) (w : World T E) :
  isFinished (future w) || isCanceled (future w) = true ->
  let w1 := snd (await_ready w) in
  suspension (begin (Awaiter.derived extract) w) = None
  /\ outcome (begin (Awaiter.derived extract) w) = Some (fst (extract w1)).
Proof.
  intros Hr. unfold begin, co_await, Fut.bind; simpl.
  rewrite await_ready_spec, Hr; simpl.
  destruct (extract _) as [[v|x| |] w2]; simpl; done.
Qed.

Lemma begin_not_ready (extract : @Fut.M T E A) (w : World T E) :
  isFinished (future w) || isCanceled (future w) = false ->
  begin (Awaiter.derived extract) w
  = MkState (snd (await_ready w)) (Some registered) None.
Proof.
  intros Hr. unfold begin, co_await, Fut.bind; simpl.
  by rewrite await_ready_spec, Hr.
Qed.

Lemma run_ready (extract : @Fut.M T E A) (w : World T E) evs :
  isFinished (future w) || isCanceled (future w) = true ->
  let st := Coroutine.run (Awaiter.derived extract) w evs in
  suspension st = None
  /\ outcome st = Some (fst (extract (snd (await_ready w)))).
Proof.
  intros Hr. destruct (begin_ready extract w Hr) as [Hs Ho].
  destruct (run_without_suspension (Awaiter.derived extract) evs _ Hs)
    as [Hs' Ho'].
  split; [exact Hs'|]. unfold Coroutine.run. by rewrite Ho', Ho.
Qed.
End NoSuspension.

(** C2. The ready-check [await_ready] returns true exactly when the future
    is already finished or already canceled, and it leaves the future as it
    found it.  Whenever it returns true, whatever happens afterwards, no
    watcher is allocated and no connection is made (the coroutine has no
    suspension state and is never resumed), and the coroutine goes straight
    on with the extraction [await_resume], run on the world the ready-check
    left. *)
Theorem await_ready_true_skips_registration
  {T E A : Type} (extract : @Fut.M T E A) (w : QFuture.World T E) :
  let f := QFuture.future w in
  let ready := WaitForFinishedOperationBase.await_ready w in
  (fst ready = Returns true
   <-> QFuture.isFinished f = true \/ QFuture.isCanceled f = true)
  /\ (fst ready = Returns false
      <-> QFuture.isFinished f = false /\ QFuture.isCanceled f = false)
  /\ QFuture.future (snd ready) = f
  /\ (fst ready = Returns true ->
      forall evs : list (Coroutine.Event T E),
        let st := Coroutine.run (Awaiter.derived extract) w evs in
        Coroutine.suspension st = None
        /\ Coroutine.suspended st = false
        /\ Coroutine.resumptions st = 0
        /\ Coroutine.outcome st = Some (fst (extract (snd ready)))).
Proof.
  intros f ready. subst ready f.
  rewrite await_ready_spec; simpl.
  split; [|split; [|split; [reflexivity|]]].
  - rewrite <- orb_true_iff. split; [by intros [= ->]|by intros ->].
  - rewrite <- orb_false_iff. split; [by intros [= ->]|by intros ->].
  - intros Hr evs. injection Hr as Hr.
    destruct (run_ready extract w evs Hr) as [Hs Ho].
    unfold Coroutine.suspended, Coroutine.resumptions.
    rewrite Hs, Ho. rewrite await_ready_spec. done.
Qed.

Lemma await_ready_true_skips_registration_witness :
  fst (WaitForFinishedOperationBase.await_ready
         (Examples.fresh Examples.canceled_unfinished)) = Returns true
  /\ Coroutine.suspension
       (Coroutine.run
          (Awaiter.derived (WaitForFinishedOperationImplT.await_resume (Some 0)))
          (Examples.fresh Examples.canceled_unfinished)
          [Coroutine.Emit WaitForFinishedOperationBase.SigCanceled]) = None
  /\ Coroutine.outcome
       (Coroutine.run
          (Awaiter.derived (WaitForFinishedOperationImplT.await_resume (Some 0)))
          (Examples.fresh Examples.finished_42)
          [Coroutine.Emit WaitForFinishedOperationBase.SigFinished])
     = Some (Returns 42).
Proof.
  split; [reflexivity|]. split.
  - destruct (await_ready_true_skips_registration
                (WaitForFinishedOperationImplT.await_resume (Some 0))
                (Examples.fresh Examples.canceled_unfinished))
      as (_ & _ & _ & H).
    exact (proj1 (H eq_refl
                    [Coroutine.Emit WaitForFinishedOperationBase.SigCanceled])).
  - destruct (await_ready_true_skips_registration
                (WaitForFinishedOperationImplT.await_resume (Some 0))
                (Examples.fresh Examples.finished_42))
      as (_ & _ & _ & H).
    exact (proj2 (proj2 (proj2
             (H eq_refl
                [Coroutine.Emit WaitForFinishedOperationBase.SigFinished])))).
Defined.

(** ** The extraction variants, call by call *)

Section Extraction.
Import QFuture.
Context {T E : Type}.
Implicit Types (w : World T E) (default : option T).

Lemma copy_await_resume_spec default w :
  WaitForFinishedOperationImplT.await_resume default w
  = let f := future w in
    if isFinished f then
      match store f with
      | Failure e =>
          (Throws (stored e),
           MkWorld f (calls w ++ [CallIsFinished; CallWaitForFinished]))
      | Results slots =>
          match slots !! 0 with
          | Some v =>
              (Returns v,
               MkWorld f (calls w ++ [CallIsFinished; CallWaitForFinished;
                                      CallIsResultReadyAt 0; CallResult]))
          | None =>
              (Throws ResultNotReady,
               MkWorld f (calls w ++ [CallIsFinished; CallWaitForFinished;
                                      CallIsResultReadyAt 0]))
          end
      end
    else (fallback default, MkWorld f (calls w ++ [CallIsFinished])).
Proof.
  destruct w as [[fin can st] cs].
  unfold WaitForFinishedOperationImplT.await_resume, Fut.bind,
    Fut.isFinished, Fut.isResultReadyAt, Fut.query, Fut.waitForFinished,
    Fut.result, Fut.throw, Fut.ret, Fut.record, QFuture.waitForFinished,
    QFuture.result, isResultReadyAt, slot, recorded_failure, fallback;
    simpl.
  destruct fin; simpl; [|by destruct default].
  destruct st as [slots|e]; simpl; rewrite <- ?app_assoc; simpl.
  2: reflexivity.
  destruct (slots !! 0) as [v|] eqn:Hv; simpl;
    rewrite ?Hv, <- ?app_assoc; reflexivity.
Qed.

Lemma take_await_resume_spec default w :
  TakeResultOperation.await_resume default w
  = let f := future w in
    if isFinished f then
      match store f with
      | Failure e =>
          (Throws (stored e),
           MkWorld f (calls w ++ [CallIsFinished; CallWaitForFinished]))
      | Results slots =>
          match slots !! 0 with
          | Some v =>
              (Returns v,
               MkWorld
                 (QFuture.Make (isFinished f) (isCanceled f)
                    (Results (delete 0 slots)))
                 (calls w ++ [CallIsFinished; CallWaitForFinished;
                              CallIsResultReadyAt 0; CallTakeResult]))
          | None =>
              (Throws ResultNotReady,
               MkWorld f (calls w ++ [CallIsFinished; CallWaitForFinished;
                                      CallIsResultReadyAt 0]))
          end
      end
    else (fallback default, MkWorld f (calls w ++ [CallIsFinished])).
Proof.
  destruct w as [[fin can st] cs].
  unfold TakeResultOperation.await_resume, Fut.bind,
    Fut.isFinished, Fut.isResultReadyAt, Fut.query, Fut.waitForFinished,
    Fut.takeResult, Fut.throw, Fut.ret, Fut.record, QFuture.waitForFinished,
    QFuture.takeResult, isResultReadyAt, slot, recorded_failure, fallback;
    simpl.
  destruct fin; simpl; [|by destruct default].
  destruct st as [slots|e]; simpl; rewrite <- ?app_assoc; simpl.
  2: reflexivity.
  destruct (slots !! 0) as [v|] eqn:Hv; simpl;
    rewrite ?Hv, <- ?app_assoc; reflexivity.
Qed.

Lemma failure_has_no_slot (f : QFuture.t T E) e index :
  recorded_failure f = Some e -> slot f index = None.
Proof. unfold recorded_failure, slot. by destruct (store f). Qed.

Lemma slot_has_no_failure (f : QFuture.t T E) v index :
  slot f index = Some v -> recorded_failure f = None.
Proof. unfold recorded_failure, slot. by destruct (store f). Qed.
End Extraction.

Section ExtractionVoid.
Import QFuture.
Context {E : Type}.

Lemma void_await_resume_spec (w : World unit E) :
  WaitForFinishedOperationImplVoid.await_resume w
  = let f := future w in
    if isFinished f then
      (match recorded_failure f with
       | Some e => Throws (stored e)
       | None => Returns tt
       end,
       MkWorld f (calls w ++ [CallIsFinished; CallWaitForFinished]))
    else (Returns tt, MkWorld f (calls w ++ [CallIsFinished])).
Proof.
  destruct w as [[fin can st] cs].
  unfold WaitForFinishedOperationImplVoid.await_resume, Fut.bind,
    Fut.isFinished, Fut.query, Fut.waitForFinished, Fut.ret, Fut.record,
    QFuture.waitForFinished; simpl.
  destruct fin; simpl; [|done].
  by rewrite <- app_assoc.
Qed.
End ExtractionVoid.

(** The synchronization step is only reached on a finished future and the
    accessors only on a populated slot: no extraction blocks or leaves the
    contract of the future. *)
Lemma await_resume_completes {T E : Type} (default : option T)
  (w : QFuture.World T E) (wv : QFuture.World unit E) :
  (exists r,
      fst (WaitForFinishedOperationImplT.await_resume default w) = r
      /\ fst (TakeResultOperation.await_resume default w) = r
      /\ r <> Blocks /\ r <> Undefined)
  /\ fst (WaitForFinishedOperationImplVoid.await_resume wv) <> Blocks
  /\ fst (WaitForFinishedOperationImplVoid.await_resume wv) <> Undefined.
Proof.
  rewrite take_await_resume_spec, copy_await_resume_spec,
    void_await_resume_spec; simpl.
  split.
  - destruct (QFuture.isFinished (QFuture.future w)); simpl.
    + destruct (QFuture.store (QFuture.future w)) as [slots|e]; simpl.
      * destruct (slots !! 0); simpl; eexists; done.
      * eexists; done.
    + destruct default; simpl; eexists; done.
  - destruct (QFuture.isFinished (QFuture.future wv)); simpl; [|done].
    by destruct (QFuture.recorded_failure (QFuture.future wv)).
Qed.

(** ** Copy-result extraction *)

(** C4, as amended.  For every non-void [T], default-constructible or not,
    copy-result extraction on a finished future first performs the
    synchronization step [waitForFinished], which re-raises the failure the
    producer recorded when there is one.  When none is recorded: if slot 0
    holds a result the extraction returns a copy of it, and if slot 0 is
    empty it throws ResultNotReady.  The future is left unchanged. *)
Theorem copy_result_on_finished
  {T E : Type} (default : option T) (w : QFuture.World T E) :
  QFuture.isFinished (QFuture.future w) = true ->
  let f := QFuture.future w in
  let r := WaitForFinishedOperationImplT.await_resume default w in
  (exists rest,
      QFuture.calls (snd r)
      = QFuture.calls w
        ++ [QFuture.CallIsFinished; QFuture.CallWaitForFinished] ++ rest)
  /\ QFuture.future (snd r) = f
  /\ (forall e, QFuture.recorded_failure f = Some e ->
       fst r = Throws (stored e))
  /\ (QFuture.recorded_failure f = None ->
      forall v, QFuture.slot f 0 = Some v ->
        fst r = Returns v
        /\ QFuture.calls (snd r)
           = QFuture.calls w
             ++ [QFuture.CallIsFinished; QFuture.CallWaitForFinished;
                 QFuture.CallIsResultReadyAt 0; QFuture.CallResult])
  /\ (QFuture.recorded_failure f = None ->
      QFuture.isResultReadyAt f 0 = false ->
      fst r = Throws ResultNotReady).
Proof.
  intros Hfin f r. subst r f. rewrite copy_await_resume_spec; simpl.
  unfold QFuture.recorded_failure, QFuture.isResultReadyAt, QFuture.slot.
  rewrite Hfin.
  destruct (QFuture.store (QFuture.future w)) as [slots|e]; simpl.
  - destruct (slots !! 0) as [v|] eqn:Hv; simpl.
    + split; [by eexists|]. split; [done|]. split; [done|].
      split; [|done]. intros _ v' [= <-]. done.
    + split; [by eexists|]. done.
  - split; [by exists []|]. split; [done|]. split; [|done].
    by intros e' [= <-].
Qed.

Lemma copy_result_on_finished_witness :
  fst (WaitForFinishedOperationImplT.await_resume (Some 0)
         (Examples.fresh Examples.finished_42)) = Returns 42
  /\ fst (WaitForFinishedOperationImplT.await_resume None
            (Examples.fresh Examples.finished_empty))
     = Throws ResultNotReady
  /\ fst (WaitForFinishedOperationImplT.await_resume (Some 0)
            (Examples.fresh Examples.finished_failed))
     = Throws (stored "boom"%string).
Proof.
  split; [|split].
  - destruct (copy_result_on_finished (Some 0)
                (Examples.fresh Examples.finished_42) eq_refl)
      as (_ & _ & _ & H & _).
    exact (proj1 (H eq_refl 42 eq_refl)).
  - destruct (copy_result_on_finished None
                (Examples.fresh Examples.finished_empty) eq_refl)
      as (_ & _ & _ & _ & H).
    exact (H eq_refl eq_refl).
  - destruct (copy_result_on_finished (Some 0)
                (Examples.fresh Examples.finished_failed) eq_refl)
      as (_ & _ & H & _).
    exact (H "boom"%string eq_refl).
Defined.

(** C4 as stated fails: this future reports finished and has no result in
    slot 0, yet copy-result extraction does not throw ResultNotReady; it
    re-raises the failure the producer recorded. *)
Lemma copy_result_not_ready_counterexample :
  QFuture.isFinished Examples.finished_failed = true
  /\ QFuture.isResultReadyAt Examples.finished_failed 0 = false
  /\ fst (WaitForFinishedOperationImplT.await_resume (Some 0)
            (Examples.fresh Examples.finished_failed))
     = Throws (stored "boom"%string)
  /\ fst (WaitForFinishedOperationImplT.await_resume (Some 0)
            (Examples.fresh Examples.finished_failed))
     <> Throws ResultNotReady.
Proof.
  split; [reflexivity|]. split; [reflexivity|]. split; [reflexivity|].
  discriminate.
Qed.

(** C5.  For every non-void [T], when copy-result extraction runs on a
    future that is not finished: if [T] is default-constructible it returns
    the default value, with no error and after asking the future nothing but
    [isFinished]; if [T] is not default-constructible it throws
    InvalidOrCanceled.  Move-result extraction does the same.  Through the
    entry point [result()], a future canceled without finishing gives
    exactly that, without suspending. *)
Theorem copy_result_on_unfinished
  {T E : Type} (default : option T) (w : QFuture.World T E) :
  QFuture.isFinished (QFuture.future w) = false ->
  let r := WaitForFinishedOperationImplT.await_resume default w in
  (is_default_constructible_v (Value T default) = true ->
   exists d, default = Some d /\ fst r = Returns d)
  /\ (is_default_constructible_v (Value T default) = false ->
      fst r = Throws InvalidOrCanceled)
  /\ snd r = QFuture.MkWorld (QFuture.future w)
               (QFuture.calls w ++ [QFuture.CallIsFinished])
  /\ TakeResultOperation.await_resume default w = r
  /\ (QFuture.isCanceled (QFuture.future w) = true ->
      forall evs,
        let st := @QCoroFuture.result E (Value T default) w evs in
        Coroutine.outcome st = Some (fallback default)
        /\ Coroutine.suspended st = false).
Proof.
  intros Hfin r. subst r.
  rewrite take_await_resume_spec, copy_await_resume_spec; simpl.
  rewrite Hfin; simpl.
  split; [|split; [|split; [reflexivity|split; [reflexivity|]]]].
  - destruct default as [d|]; [|discriminate]. intros _. by exists d.
  - by destruct default as [d|].
  - intros Hcan evs.
    assert (Hr : QFuture.isFinished (QFuture.future w)
                 || QFuture.isCanceled (QFuture.future w) = true)
      by (by rewrite Hcan, orb_true_r).
    destruct (run_ready (WaitForFinishedOperationImplT.await_resume default)
                w evs Hr) as [Hs Ho].
    split.
    + etransitivity; [exact Ho|].
      rewrite copy_await_resume_spec, await_ready_spec; simpl.
      by rewrite Hfin.
    + exact (@eq_ind_r _ None
               (fun o => match o with Some _ => true | None => false end
                         = false) eq_refl _ Hs).
Qed.

Lemma copy_result_on_unfinished_witness :
  fst (WaitForFinishedOperationImplT.await_resume (Some 0)
         (Examples.fresh Examples.canceled_unfinished)) = Returns 0
  /\ fst (WaitForFinishedOperationImplT.await_resume None
            (Examples.fresh Examples.canceled_unfinished))
     = Throws InvalidOrCanceled
  /\ Coroutine.outcome
       (QCoroFuture.result (Value nat (Some 0))
          (Examples.fresh Examples.canceled_unfinished) [])
     = Some (Returns 0).
Proof.
  split; [|split].
  - destruct (copy_result_on_unfinished (Some 0)
                (Examples.fresh Examples.canceled_unfinished) eq_refl)
      as (H & _).
    destruct (H eq_refl) as (d & Hd & Hr).
    injection Hd as <-. exact Hr.
  - destruct (copy_result_on_unfinished None
                (Examples.fresh Examples.canceled_unfinished) eq_refl)
      as (_ & H & _).
    exact (H eq_refl).
  - destruct (copy_result_on_unfinished (Some 0)
                (Examples.fresh Examples.canceled_unfinished) eq_refl)
      as (_ & _ & _ & _ & H).
    exact (proj1 (H eq_refl [])).
Defined.

(** ** Void extraction *)

(** C8.  For a void result type, extraction on a finished future asks
    [isFinished] and then performs the synchronization step
    [waitForFinished], once; the future is left unchanged.  When the producer
    recorded a failure, that failure is re-raised; when it recorded none, the
    extraction returns normally with no value. *)
Theorem void_on_finished {E : Type} (w : QFuture.World unit E) :
  QFuture.isFinished (QFuture.future w) = true ->
  let r := WaitForFinishedOperationImplVoid.await_resume w in
  snd r = QFuture.MkWorld (QFuture.future w)
            (QFuture.calls w
             ++ [QFuture.CallIsFinished; QFuture.CallWaitForFinished])
  /\ (forall e, QFuture.recorded_failure (QFuture.future w) = Some e ->
      fst r = Throws (stored e))
  /\ (QFuture.recorded_failure (QFuture.future w) = None ->
      fst r = Returns tt).
Proof.
  intros Hfin r. subst r. rewrite void_await_resume_spec; simpl.
  rewrite Hfin; simpl. split; [reflexivity|].
  destruct (QFuture.recorded_failure (QFuture.future w)) as [e|].
  - split; [by intros e' [= <-]|done].
  - done.
Qed.

Lemma void_on_finished_witness :
  fst (WaitForFinishedOperationImplVoid.await_resume
         (Examples.fresh Examples.void_failed))
  = Throws (stored "boom"%string)
  /\ fst (WaitForFinishedOperationImplVoid.await_resume
            (Examples.fresh Examples.void_finished))
     = Returns tt.
Proof.
  split.
  - destruct (void_on_finished (Examples.fresh Examples.void_failed) eq_refl)
      as (_ & H & _).
    exact (H "boom"%string eq_refl).
  - destruct (void_on_finished (Examples.fresh Examples.void_finished) eq_refl)
      as (_ & _ & H).
    exact (H eq_refl).
Defined.

(** C10.  For a void result type, when extraction runs on a future that is
    not finished (canceled or invalid), it returns normally: nothing is
    thrown, the future is unchanged, and the only call made on the future is
    [isFinished], so the synchronization step [waitForFinished] is not
    performed. *)
Theorem void_on_unfinished {E : Type} (w : QFuture.World unit E) :
  QFuture.isFinished (QFuture.future w) = false ->
  WaitForFinishedOperationImplVoid.await_resume w
  = (Returns tt,
     QFuture.MkWorld (QFuture.future w)
       (QFuture.calls w ++ [QFuture.CallIsFinished]))
  /\ (forall x : exception E,
        fst (WaitForFinishedOperationImplVoid.await_resume w) <> Throws x).
Proof.
  intros Hfin. rewrite void_await_resume_spec; simpl. rewrite Hfin; simpl.
  split; [reflexivity|discriminate].
Qed.

Lemma void_on_unfinished_witness :
  WaitForFinishedOperationImplVoid.await_resume
    (Examples.fresh Examples.void_canceled)
  = (Returns tt,
     QFuture.MkWorld Examples.void_canceled [QFuture.CallIsFinished]).
Proof.
  exact (proj1 (void_on_unfinished (Examples.fresh Examples.void_canceled)
                  eq_refl)).
Defined.

(** ** The entry points *)

(** C6.  For every result type and every future, [waitForFinished()] and
    [result()] are the same operation: both run [co_await] on the same
    awaiter, the void variant when [T] is void and the copy-result variant
    otherwise, so whatever happens around them they end in the same state,
    with the same value, default or failure. *)
Theorem waitForFinished_equals_result {E : Type} :
  (forall (ty : ResultType) (w : QFuture.World (carrier ty) E)
          (evs : list (Coroutine.Event (carrier ty) E)),
      QCoroFuture.waitForFinished ty w evs = QCoroFuture.result ty w evs
      /\ Coroutine.outcome (QCoroFuture.waitForFinished ty w evs)
         = Coroutine.outcome (QCoroFuture.result ty w evs)
      /\ QCoroFuture.result ty w evs
         = Coroutine.run (QCoroFuture.WaitForFinishedOperation ty) w evs)
  /\ is_void_v Void = true
  /\ @QCoroFuture.WaitForFinishedOperation E Void
     = WaitForFinishedOperationImplVoid.awaiter
  /\ (forall (T : Type) (default : option T),
        is_void_v (Value T default) = false
        /\ @QCoroFuture.WaitForFinishedOperation E (Value T default)
           = WaitForFinishedOperationImplT.awaiter default).
Proof.
  split; [|split; [|split]].
  - intros ty w evs. unfold QCoroFuture.waitForFinished, QCoroFuture.result.
    done.
  - reflexivity.
  - reflexivity.
  - intros T d. done.
Qed.

(** Scenario 1 of the specification: an integer future already finished
    with 42 gives 42 through either entry point, without suspending. *)
Example result_of_finished_42 :
  let st := QCoroFuture.result (Value nat (Some 0))
              (Examples.fresh Examples.finished_42) [] in
  Coroutine.outcome st = Some (Returns 42)
  /\ Coroutine.suspended st = false
  /\ QCoroFuture.waitForFinished (Value nat (Some 0))
       (Examples.fresh Examples.finished_42) [] = st.
Proof. repeat split. Qed.

(** Scenario 2 of the specification: an integer future pending at the
    await; the producer completes it with 7 and the finished signal is
    emitted: the coroutine suspends, is resumed once, and gets 7. *)
Example result_of_pending_then_7 :
  let st := QCoroFuture.result (Value nat (Some 0))
              (Examples.fresh Examples.pending)
              [Coroutine.Produce Examples.finished_7;
               Coroutine.Emit WaitForFinishedOperationBase.SigFinished] in
  Coroutine.suspended st = true
  /\ Coroutine.resumptions st = 1
  /\ Coroutine.outcome st = Some (Returns 7).
Proof. repeat split. Qed.

(** Scenario 5 of the specification: a void future that finishes with a
    stored error; both signals are emitted, the coroutine is resumed once
    and the error is re-raised. *)
Example waitForFinished_of_failing_void :
  let st := QCoroFuture.waitForFinished Void
              (Examples.fresh Examples.void_pending)
              [Coroutine.Produce Examples.void_failed;
               Coroutine.Emit WaitForFinishedOperationBase.SigCanceled;
               Coroutine.Emit WaitForFinishedOperationBase.SigFinished] in
  Coroutine.resumptions st = 1
  /\ Coroutine.outcome st = Some (Throws (stored "boom"%string))
  /\ QFuture.calls (Coroutine.world st)
     = [QFuture.CallIsFinished; QFuture.CallIsCanceled;
        QFuture.CallIsFinished; QFuture.CallWaitForFinished].
Proof. repeat split. Qed.

(** ** Move-result extraction *)

(** C7, as amended.  [takeResult()] is compiled from Qt 6 on and only for a
    non-void [T]; it awaits the move-result variant.  On a finished future
    with a result in slot 0 the variant returns that value through the
    accessor [takeResult], which moves it out: afterwards slot 0 is empty.
    Its readiness check and its outcome are those of the copy-result variant
    on every future: the recorded failure re-raised when there is one,
    otherwise ResultNotReady when finished without a result, and the default
    value or InvalidOrCanceled when not finished. *)
Theorem takeResult_move_variant
  {T E : Type} (default : option T) (w : QFuture.World T E) :
  let f := QFuture.future w in
  let r := TakeResultOperation.await_resume default w in
  (forall qt, 6 <= qt ->
      @QCoroFuture.takeResult E qt (Value T default)
      = Some (Coroutine.run (TakeResultOperation.awaiter default)))
  /\ (forall qt, @QCoroFuture.takeResult E qt Void = None)
  /\ (forall qt, qt < 6 ->
      @QCoroFuture.takeResult E qt (Value T default) = None)
  /\ Awaiter.await_ready (TakeResultOperation.awaiter (E:=E) default)
     = Awaiter.await_ready (WaitForFinishedOperationImplT.awaiter default)
  /\ fst r = fst (WaitForFinishedOperationImplT.await_resume default w)
  /\ (QFuture.isFinished f = true ->
      forall v, QFuture.slot f 0 = Some v ->
        fst r = Returns v
        /\ QFuture.slot (QFuture.future (snd r)) 0 = None
        /\ QFuture.calls (snd r)
           = QFuture.calls w
             ++ [QFuture.CallIsFinished; QFuture.CallWaitForFinished;
                 QFuture.CallIsResultReadyAt 0; QFuture.CallTakeResult])
  /\ (QFuture.isFinished f = true ->
      forall e, QFuture.recorded_failure f = Some e ->
        fst r = Throws (stored e))
  /\ (QFuture.isFinished f = true ->
      QFuture.recorded_failure f = None ->
      QFuture.isResultReadyAt f 0 = false ->
      fst r = Throws ResultNotReady)
  /\ (QFuture.isFinished f = false -> fst r = fallback default).
Proof.
  intros f r. subst f r.
  split; [|split; [|split; [|split; [reflexivity|]]]].
  - intros qt Hqt. unfold QCoroFuture.takeResult.
    destruct (6 <=? qt) eqn:Hle; [reflexivity|].
    apply Nat.leb_gt in Hle. lia.
  - intros qt. unfold QCoroFuture.takeResult. by destruct (6 <=? qt).
  - intros qt Hqt. unfold QCoroFuture.takeResult.
    destruct (6 <=? qt) eqn:Hle; [|reflexivity].
    apply Nat.leb_le in Hle. lia.
  - rewrite take_await_resume_spec, copy_await_resume_spec; simpl.
    unfold QFuture.recorded_failure, QFuture.isResultReadyAt, QFuture.slot.
    destruct (QFuture.isFinished (QFuture.future w)); simpl.
    + destruct (QFuture.store (QFuture.future w)) as [slots|e]; simpl.
      * destruct (slots !! 0) as [v|] eqn:Hv; simpl.
        -- split; [done|]. split; [|done].
           intros _ v' [= <-]. by rewrite lookup_delete_eq.
        -- done.
      * split; [done|]. split; [done|]. split; [|done].
        by intros _ e' [= <-].
    + done.
Qed.

Lemma takeResult_move_variant_witness :
  @QCoroFuture.takeResult string 6 (Value nat (Some 0))
  = Some (Coroutine.run (TakeResultOperation.awaiter (Some 0)))
  /\ fst (TakeResultOperation.await_resume (Some 0)
            (Examples.fresh Examples.finished_42)) = Returns 42
  /\ fst (TakeResultOperation.await_resume (Some 0)
            (Examples.fresh Examples.finished_failed))
     = Throws (stored "boom"%string)
  /\ fst (TakeResultOperation.await_resume (Some 0)
            (Examples.fresh Examples.finished_empty))
     = Throws ResultNotReady
  /\ fst (TakeResultOperation.await_resume None
            (Examples.fresh Examples.canceled_unfinished))
     = Throws InvalidOrCanceled
  /\ @QCoroFuture.takeResult string 5 (Value nat (Some 0)) = None.
Proof.
  split; [|split; [|split; [|split; [|split]]]].
  6: { destruct (takeResult_move_variant (E:=string) (Some 0)
                  (Examples.fresh Examples.finished_42)) as (_ & _ & H & _).
       apply (H 5). lia. }
  - destruct (takeResult_move_variant (E:=string) (Some 0)
                (Examples.fresh Examples.finished_42)) as (H & _).
    apply (H 6). lia.
  - destruct (takeResult_move_variant (Some 0)
                (Examples.fresh Examples.finished_42))
      as (_ & _ & _ & _ & _ & H & _).
    exact (proj1 (H eq_refl 42 eq_refl)).
  - destruct (takeResult_move_variant (Some 0)
                (Examples.fresh Examples.finished_failed))
      as (_ & _ & _ & _ & _ & _ & H & _).
    exact (H eq_refl "boom"%string eq_refl).
  - destruct (takeResult_move_variant (Some 0)
                (Examples.fresh Examples.finished_empty))
      as (_ & _ & _ & _ & _ & _ & _ & H & _).
    exact (H eq_refl eq_refl eq_refl).
  - destruct (takeResult_move_variant None
                (Examples.fresh Examples.canceled_unfinished))
      as (_ & _ & _ & _ & _ & _ & _ & _ & H).
    exact (H eq_refl).
Defined.

(** C7 as stated fails: on this future, finished without a result, the
    move-result variant does not throw ResultNotReady; like the copy-result
    variant it re-raises the failure the producer recorded. *)
Lemma takeResult_not_ready_counterexample :
  QFuture.isFinished Examples.finished_failed = true
  /\ QFuture.isResultReadyAt Examples.finished_failed 0 = false
  /\ fst (TakeResultOperation.await_resume (Some 0)
            (Examples.fresh Examples.finished_failed))
     = Throws (stored "boom"%string)
  /\ fst (TakeResultOperation.await_resume (Some 0)
            (Examples.fresh Examples.finished_failed))
     <> Throws ResultNotReady.
Proof.
  split; [reflexivity|]. split; [reflexivity|]. split; [reflexivity|].
  discriminate.
Qed.

(** ** What the adapter does to the future *)

Section Frame.
Import QFuture WaitForFinishedOperationBase Coroutine.
Context {T E A : Type}.

Lemma deliver_emit_frame (extract : @Fut.M T E A) c st :
  Fut.read_only extract ->
  future (world (deliver (Awaiter.derived extract) (Emit c) st))
  = future (world st).
Proof.
  intros Hro. unfold deliver. destruct (suspension st) as [s|]; [|done].
  destruct (resume_count s <? resume_count (emit c s)); [|done].
  simpl. specialize (Hro (world st)).
  destruct (extract (world st)) as [r w']. exact Hro.
Qed.

Lemma begin_frame (extract : @Fut.M T E A) w :
  Fut.read_only extract ->
  future (world (begin (Awaiter.derived extract) w)) = future w.
Proof.
  intros Hro. unfold begin, co_await, Fut.bind; simpl.
  rewrite await_ready_spec.
  destruct (isFinished (future w) || isCanceled (future w)); simpl.
  - match goal with |- context [extract ?w0] =>
      specialize (Hro w0); destruct (extract w0) as [[v|x| |] w1] end;
      simpl in *; exact Hro.
  - reflexivity.
Qed.

Lemma run_frame (extract : @Fut.M T E A) w (signals : list Channel) :
  Fut.read_only extract ->
  future (world (Coroutine.run (Awaiter.derived extract) w
                   (map Emit signals)))
  = future w.
Proof.
  intros Hro. unfold Coroutine.run.
  rewrite <- (begin_frame extract w Hro).
  generalize (begin (Awaiter.derived extract) w).
  induction signals as [|c cs IH]; intros st; simpl; [done|].
  rewrite IH. by apply deliver_emit_frame.
Qed.
End Frame.

(** C9, as amended.  The ready-check, the registration, and extraction by
    the copy-result and the void variant only query the future: each leaves
    it exactly as it was, and so does a whole [result()] await during which
    the producer does nothing.  Extraction by the move-result variant leaves
    the future as it was except on a finished future with a result in slot
    0: there it moves the result out, and slot 0 is empty afterwards. *)
Theorem future_only_queried_except_by_takeResult
  {T E : Type} (default : option T)
  (w : QFuture.World T E) (wv : QFuture.World unit E) :
  let f := QFuture.future w in
  QFuture.future (snd (WaitForFinishedOperationBase.await_ready w)) = f
  /\ QFuture.future (snd (WaitForFinishedOperationBase.await_suspend w)) = f
  /\ QFuture.future
       (snd (WaitForFinishedOperationImplT.await_resume default w)) = f
  /\ QFuture.future (snd (WaitForFinishedOperationImplVoid.await_resume wv))
     = QFuture.future wv
  /\ (forall signals,
        QFuture.future
          (Coroutine.world
             (@QCoroFuture.result E (Value T default) w
                (map Coroutine.Emit signals))) = f)
  /\ (forall signals,
        QFuture.future
          (Coroutine.world
             (@QCoroFuture.result E Void wv (map Coroutine.Emit signals)))
        = QFuture.future wv)
  /\ (QFuture.isFinished f && QFuture.isResultReadyAt f 0 = false ->
      QFuture.future (snd (TakeResultOperation.await_resume default w)) = f)
  /\ (QFuture.isFinished f && QFuture.isResultReadyAt f 0 = true ->
      let f' :=
        QFuture.future (snd (TakeResultOperation.await_resume default w)) in
      QFuture.isFinished f' = QFuture.isFinished f
      /\ QFuture.isCanceled f' = QFuture.isCanceled f
      /\ QFuture.isResultReadyAt f' 0 = false
      /\ f' <> f).
Proof.
  intros f. subst f.
  assert (Hcopy : Fut.read_only (WaitForFinishedOperationImplT.await_resume
                               (E:=E) default)).
  { intros w0. rewrite copy_await_resume_spec; simpl.
    destruct (QFuture.isFinished (QFuture.future w0)); [|done].
    destruct (QFuture.store (QFuture.future w0)) as [slots|e]; [|done].
    by destruct (slots !! 0). }
  assert (Hvoid : Fut.read_only (WaitForFinishedOperationImplVoid.await_resume
                               (E:=E))).
  { intros w0. rewrite void_await_resume_spec; simpl.
    by destruct (QFuture.isFinished (QFuture.future w0)). }
  split; [by rewrite await_ready_spec|]. split; [reflexivity|].
  split; [apply Hcopy|]. split; [apply Hvoid|].
  split; [intros signals; exact (run_frame _ w signals Hcopy)|].
  split; [intros signals; exact (run_frame _ wv signals Hvoid)|].
  rewrite take_await_resume_spec; simpl.
  unfold QFuture.isResultReadyAt, QFuture.slot.
  destruct (QFuture.isFinished (QFuture.future w)) eqn:Hfin; simpl; [|done].
  destruct (QFuture.store (QFuture.future w)) as [slots|e] eqn:Hst; simpl;
    [|done].
  destruct (slots !! 0) as [v|] eqn:Hv; simpl; [|done].
  split; [done|]. intros _. rewrite lookup_delete_eq.
  split; [done|]. split; [done|]. split; [done|].
  intros Heq. apply (f_equal (fun g => QFuture.slot g 0)) in Heq.
  unfold QFuture.slot in Heq; simpl in Heq.
  rewrite Hst, lookup_delete_eq, Hv in Heq. discriminate.
Qed.

Lemma future_only_queried_except_by_takeResult_witness :
  QFuture.future
    (snd (TakeResultOperation.await_resume (Some 0)
            (Examples.fresh Examples.finished_empty)))
  = Examples.finished_empty
  /\ QFuture.isResultReadyAt
       (QFuture.future
          (snd (TakeResultOperation.await_resume (Some 0)
                  (Examples.fresh Examples.finished_42)))) 0
     = false.
Proof.
  split.
  - destruct (future_only_queried_except_by_takeResult (Some 0)
                (Examples.fresh Examples.finished_empty)
                (Examples.fresh Examples.void_finished))
      as (_ & _ & _ & _ & _ & _ & H & _).
    exact (H eq_refl).
  - destruct (future_only_queried_except_by_takeResult (Some 0)
                (Examples.fresh Examples.finished_42)
                (Examples.fresh Examples.void_finished))
      as (_ & _ & _ & _ & _ & _ & _ & H).
    exact (proj1 (proj2 (proj2 (H eq_refl)))).
Defined.

(** C9 as stated fails: after move-result extraction on this finished
    future the value 42 is no longer stored in it. *)
Lemma takeResult_mutates_future_counterexample :
  QFuture.slot Examples.finished_42 0 = Some 42
  /\ QFuture.slot
       (QFuture.future
          (snd (TakeResultOperation.await_resume (Some 0)
                  (Examples.fresh Examples.finished_42)))) 0
     = None
  /\ QFuture.future
       (snd (TakeResultOperation.await_resume (Some 0)
               (Examples.fresh Examples.finished_42)))
     <> Examples.finished_42.
Proof.
  split; [reflexivity|]. split; [reflexivity|].
  intros Heq. apply (f_equal (fun g => QFuture.slot g 0)) in Heq.
  vm_compute in Heq. discriminate.
Qed.

(** ** Racing invocations: the invariant *)

Section RaceInvariant.
Import WaitForFinishedOperationBase Race.
Implicit Types (s : Suspension) (c : Config) (p q : pc).

Lemma compare_exchange_wins s :
  done s = false ->
  compare_exchange_strong false true s = (true, after 0 s).
Proof. intros Hd. unfold after, compare_exchange_strong. by rewrite Hd. Qed.

Lemma compare_exchange_loses s :
  done s = true -> compare_exchange_strong false true s = (false, s).
Proof. intros Hd. unfold compare_exchange_strong. by rewrite Hd. Qed.

Lemma done_after k s : done s = false -> done (after k s) = true.
Proof.
  intros Hd. unfold after, compare_exchange_strong. rewrite Hd.
  by do 4 (destruct k as [|k]; [reflexivity|]).
Qed.

(** A thread that finds the flag set returns at once and leaves the shared
    state untouched. *)
Lemma loser_step s :
  done s = true -> step AtCompareExchange s = (Returned false, s).
Proof. intros Hd. unfold step. by rewrite compare_exchange_loses. Qed.

Lemma winner_step p k s :
  done s = false ->
  progress p = Some k ->
  exists p' k',
    step p (after k s) = (p', after k' s)
    /\ progress p' = Some k'
    /\ (k' = S k \/ (k = 4 /\ k' = 4)).
Proof.
  intros Hd Hp.
  destruct p as [| | | | |[|]]; simpl in Hp; try discriminate;
    injection Hp as <-;
    [> exists AtDisconnectCanceled, 1 | exists AtDeleteLater, 2
     | exists AtResume, 3 | exists (Returned true), 4
     | exists (Returned true), 4 ];
    (split; [reflexivity|split; [reflexivity|auto]]).
Qed.

Lemma invariant_start n s : invariant s (start n s).
Proof.
  left. split; [reflexivity|]. simpl.
  apply Forall_forall. intros p Hp.
  by apply elem_of_replicate in Hp as [-> _].
Qed.

Lemma invariant_schedule s i c :
  done s = false -> invariant s c -> invariant s (schedule i c).
Proof.
  intros Hd Hinv. unfold schedule.
  destruct (threads c !! i) as [p|] eqn:Hi; [|exact Hinv].
  pose proof (lookup_lt_Some _ _ _ Hi) as Hlt.
  destruct Hinv as [[Hs Hall]|(i0 & p0 & k & Hi0 & Hp0 & Hs & Hothers)].
  - (* the first thread to run wins *)
    rewrite Forall_lookup in Hall. rewrite <- (Hall i p Hi), Hs.
    unfold step. rewrite (compare_exchange_wins s Hd). simpl.
    right. exists i, AtDisconnectFinished, 0. simpl.
    split; [by apply list_lookup_insert_eq|]. split; [reflexivity|].
    split; [reflexivity|].
    intros j q Hne Hj. rewrite list_lookup_insert_ne in Hj by done.
    left. symmetry. by apply (Hall j).
  - destruct (decide (i = i0)) as [->|Hne].
    + (* the winner goes on *)
      assert (p = p0) as -> by congruence.
      destruct (winner_step p0 k s Hd Hp0) as (p' & k' & Hstep & Hp' & _).
      rewrite Hs, Hstep. right. exists i0, p', k'. simpl.
      split; [by apply list_lookup_insert_eq|]. split; [exact Hp'|].
      split; [reflexivity|].
      intros j q Hj Hq. rewrite list_lookup_insert_ne in Hq by done.
      by apply (Hothers j).
    + (* another thread: it loses, or it has already returned *)
      assert (Hdone : done (shared c) = true)
        by (rewrite Hs; by apply done_after).
      assert (Hstep : step p (shared c) = (Returned false, shared c)).
      { destruct (Hothers i p Hne Hi) as [-> | ->];
          [by apply loser_step|reflexivity]. }
      rewrite Hstep. right. exists i0, p0, k. simpl.
      split; [by rewrite list_lookup_insert_ne|]. split; [exact Hp0|].
      split; [exact Hs|].
      intros j q Hj Hq.
      destruct (decide (i = j)) as [<-|Hij].
      * rewrite list_lookup_insert_eq in Hq by done. right. congruence.
      * rewrite list_lookup_insert_ne in Hq by done. by apply (Hothers j).
Qed.

Lemma invariant_run s sched c :
  done s = false -> invariant s c -> invariant s (run sched c).
Proof.
  intros Hd. revert c. induction sched as [|i sched IH]; intros c Hinv;
    simpl; [exact Hinv|].
  apply IH. by apply invariant_schedule.
Qed.

Lemma length_schedule i c :
  length (threads (schedule i c)) = length (threads c).
Proof.
  unfold schedule. destruct (threads c !! i) as [p|]; [|reflexivity].
  destruct (step p (shared c)) as [p' s']. simpl. apply length_insert.
Qed.

Lemma length_run sched c :
  length (threads (run sched c)) = length (threads c).
Proof.
  revert c. induction sched as [|i sched IH]; intros c; simpl; [done|].
  by rewrite IH, length_schedule.
Qed.

(** Every reachable configuration satisfies the invariant. *)
Lemma invariant_reachable n sched s :
  done s = false -> invariant s (run sched (start n s)).
Proof. intros Hd. apply invariant_run; [exact Hd|apply invariant_start]. Qed.
End RaceInvariant.

(** ** Racing invocations: where they end *)

Section RaceOutcome.
Import WaitForFinishedOperationBase Race.
Implicit Types (s : Suspension) (c : Config) (p q : pc).

Lemma resume_after s : done s = false -> resume s = after 4 s.
Proof.
  intros Hd. unfold resume, after, compare_exchange_strong.
  by rewrite Hd.
Qed.

Lemma effects_after k s :
  done s = false ->
  effects (after k s) = effects s ++ take k teardown_then_resume.
Proof.
  intros Hd. unfold after, compare_exchange_strong. rewrite Hd.
  do 4 (destruct k as [|k];
        [simpl; unfold perform; simpl;
         rewrite <- ?app_assoc; rewrite ?app_nil_r; reflexivity|]).
  unfold teardown_then_resume. rewrite take_ge by (simpl; lia).
  simpl. repeat (unfold perform; simpl). by rewrite <- !app_assoc.
Qed.

(** Once the winner is at the call of [resume()], or past it, both
    connections are gone and the deletion of the watcher is scheduled. *)
Lemma torn_down_after k s :
  done s = false -> 3 <= k ->
  finished (after k s) = false
  /\ canceled (after k s) = false
  /\ watcher_deleteLater (after k s) = true
  /\ watcher_alive (after k s) = watcher_alive s.
Proof.
  intros Hd Hk. unfold after, compare_exchange_strong. rewrite Hd.
  do 3 (destruct k as [|k]; [lia|]). by destruct k.
Qed.

Lemma filter_losers n :
  List.filter has_won (replicate n (Returned false)) = [].
Proof. induction n as [|n IH]; simpl; [done|exact IH]. Qed.

Lemma one_winner n i :
  i < n ->
  length (List.filter has_won
            (<[i := Returned true]> (replicate n (Returned false)))) = 1.
Proof.
  revert i. induction n as [|n IH]; intros i Hi; [lia|].
  destruct i as [|i]; simpl.
  - by rewrite filter_losers.
  - apply IH. lia.
Qed.

(** When every invocation has returned, exactly one of them has won, all
    the others have lost, and the shared state is what one run of the
    lambda makes of it. *)
Lemma race_final n sched s :
  done s = false -> 0 < n ->
  all_returned (run sched (start n s)) = true ->
  shared (run sched (start n s)) = resume s
  /\ exists i, i < n
       /\ threads (run sched (start n s))
          = <[i := Returned true]> (replicate n (Returned false)).
Proof.
  intros Hd Hn Hall.
  pose proof (invariant_reachable n sched s Hd) as Hinv.
  pose proof (length_run sched (start n s)) as Hlen.
  simpl in Hlen. rewrite length_replicate in Hlen.
  set (c := run sched (start n s)) in *.
  unfold all_returned in Hall. rewrite forallb_forall in Hall.
  assert (Hret : forall j q, threads c !! j = Some q -> returned q = true).
  { intros j q Hq. apply Hall, list_elem_of_In, list_elem_of_lookup.
    by exists j. }
  destruct Hinv as [[_ Hnone]|(i & p & k & Hi & Hp & Hs & Hothers)].
  - (* nobody has run: impossible, the threads have returned *)
    destruct (lookup_lt_is_Some_2 (threads c) 0) as [q Hq]; [lia|].
    rewrite Forall_lookup in Hnone.
    specialize (Hret 0 q Hq). rewrite <- (Hnone 0 q Hq) in Hret.
    discriminate.
  - assert (p = Returned true /\ k = 4) as [-> ->].
    { specialize (Hret i p Hi).
      destruct p as [| | | | |[|]]; simpl in *; try discriminate.
      by injection Hp as <-. }
    split; [by rewrite resume_after|].
    pose proof (lookup_lt_Some _ _ _ Hi) as Hlt.
    exists i. split; [lia|].
    apply list_eq. intros j.
    destruct (decide (i = j)) as [<-|Hne].
    + rewrite Hi, list_lookup_insert_eq; [done|].
      rewrite length_replicate. lia.
    + rewrite list_lookup_insert_ne by done.
      destruct (threads c !! j) as [q|] eqn:Hq.
      * pose proof (lookup_lt_Some _ _ _ Hq) as Hj.
        rewrite lookup_replicate_2 by lia.
        specialize (Hret j q Hq).
        destruct (Hothers j q (not_eq_sym Hne) Hq) as [-> | ->];
          [discriminate|done].
      * symmetry. apply lookup_replicate_None.
        apply lookup_ge_None in Hq. lia.
Qed.

(** At no point of any interleaving has [resume()] been called twice. *)
Lemma resumed_at_most_once n sched s :
  done s = false ->
  resume_count (shared (run sched (start n s))) <= resume_count s + 1.
Proof.
  intros Hd.
  destruct (invariant_reachable n sched s Hd)
    as [[-> _]|(i & p & k & _ & _ & -> & _)]; [lia|].
  unfold resume_count. rewrite effects_after by done.
  rewrite List.filter_app, length_app. unfold teardown_then_resume.
  do 4 (destruct k as [|k]; [simpl; lia|]). simpl.
  rewrite take_nil. simpl. lia.
Qed.
End RaceOutcome.

(** ** Racing invocations: every one of them returns *)

Section RaceProgress.
Import WaitForFinishedOperationBase Race.
Implicit Types (s : Suspension) (c : Config) (p q : pc).

Lemma step_remaining p s : remaining (fst (step p s)) <= pred (remaining p).
Proof.
  destruct p; simpl; try lia.
  destruct (compare_exchange_strong false true s) as [[|] s']; simpl; lia.
Qed.

Lemma schedule_same i c p :
  threads c !! i = Some p ->
  exists p', threads (schedule i c) !! i = Some p'
             /\ remaining p' <= pred (remaining p).
Proof.
  intros Hi. unfold schedule. rewrite Hi.
  pose proof (step_remaining p (shared c)) as Hle.
  destruct (step p (shared c)) as [p' s']. simpl in *.
  exists p'. split; [|exact Hle].
  apply list_lookup_insert_eq. by eapply lookup_lt_Some.
Qed.

Lemma schedule_other i j c p :
  threads c !! j = Some p ->
  exists p', threads (schedule i c) !! j = Some p'
             /\ remaining p' <= remaining p.
Proof.
  intros Hj. destruct (decide (i = j)) as [->|Hne].
  - destruct (schedule_same j c p Hj) as (p' & Hp' & Hle).
    exists p'. split; [exact Hp'|lia].
  - exists p. split; [|lia]. unfold schedule.
    destruct (threads c !! i) as [q|]; [|exact Hj].
    destruct (step q (shared c)) as [q' s']. simpl.
    by rewrite list_lookup_insert_ne.
Qed.

Lemma run_other sched j c p :
  threads c !! j = Some p ->
  exists p', threads (run sched c) !! j = Some p'
             /\ remaining p' <= remaining p.
Proof.
  revert c p. induction sched as [|i sched IH]; intros c p Hj; simpl.
  - exists p. split; [exact Hj|lia].
  - destruct (schedule_other i j c p Hj) as (p1 & Hp1 & Hle1).
    destruct (IH _ _ Hp1) as (p2 & Hp2 & Hle2).
    exists p2. split; [exact Hp2|lia].
Qed.

Lemma run_same m i c p :
  threads c !! i = Some p ->
  exists p', threads (run (replicate m i) c) !! i = Some p'
             /\ remaining p' <= remaining p - m.
Proof.
  revert c p. induction m as [|m IH]; intros c p Hi; simpl.
  - exists p. split; [exact Hi|lia].
  - destruct (schedule_same i c p Hi) as (p1 & Hp1 & Hle1).
    destruct (IH _ _ Hp1) as (p2 & Hp2 & Hle2).
    exists p2. split; [exact Hp2|lia].
Qed.

Lemma remaining_bound p : remaining p <= 5.
Proof. destruct p; simpl; lia. Qed.

Lemma run_app sched1 sched2 c :
  run (sched1 ++ sched2) c = run sched2 (run sched1 c).
Proof. unfold run. apply fold_left_app. Qed.

Lemma run_each (indices : list nat) c j p :
  j ∈ indices ->
  threads c !! j = Some p ->
  exists p', threads (run (flat_map (fun i => replicate 5 i) indices) c) !! j
             = Some p'
             /\ remaining p' = 0.
Proof.
  revert c p. induction indices as [|i indices IH]; intros c p Hin Hj.
  - by apply elem_of_nil in Hin.
  - change (flat_map (fun i => replicate 5 i) (i :: indices))
      with (replicate 5 i ++ flat_map (fun i => replicate 5 i) indices).
    rewrite run_app.
    apply elem_of_cons in Hin as [->|Hin].
    + destruct (run_same 5 i c p Hj) as (p1 & Hp1 & Hle1).
      pose proof (remaining_bound p).
      destruct (run_other (flat_map (fun i => replicate 5 i) indices)
                  i _ p1 Hp1) as (p2 & Hp2 & Hle2).
      exists p2. split; [exact Hp2|lia].
    + destruct (run_other (replicate 5 i) j c p Hj) as (p1 & Hp1 & _).
      exact (IH _ p1 Hin Hp1).
Qed.

(** There is always a schedule after which every invocation has
    returned: let them run one after another. *)
Lemma one_after_another_returns n s :
  all_returned (run (one_after_another n) (start n s)) = true.
Proof.
  unfold all_returned. apply forallb_forall. intros p Hp.
  apply list_elem_of_In, list_elem_of_lookup in Hp as [j Hj].
  pose proof (lookup_lt_Some _ _ _ Hj) as Hlt.
  rewrite length_run in Hlt. simpl in Hlt. rewrite length_replicate in Hlt.
  assert (Hstart : threads (start n s) !! j = Some AtCompareExchange)
    by (by apply lookup_replicate_2).
  assert (Hin : j ∈ seq 0 n) by (apply elem_of_seq; lia).
  destruct (run_each (seq 0 n) (start n s) j _ Hin Hstart)
    as (p' & Hp' & Hrem).
  unfold one_after_another in Hj. rewrite Hp' in Hj. injection Hj as <-.
  by destruct p'.
Qed.
End RaceProgress.

(** ** Signals delivered one at a time *)

Section Sequential.
Import QFuture WaitForFinishedOperationBase Coroutine.
Context {T E A : Type}.

Lemma emit_registered c : emit c registered = resume registered.
Proof. by destruct c. Qed.

Lemma emit_resumed c : emit c (resume registered) = resume registered.
Proof. by destruct c. Qed.

Lemma suspension_deliver_emit (aw : Awaiter.t T E A) c st s :
  suspension st = Some s ->
  suspension (deliver aw (Emit c) st) = Some (emit c s).
Proof.
  intros Hs. unfold deliver. rewrite Hs.
  destruct (resume_count s <? resume_count (emit c s)); [|done].
  by destruct (Awaiter.await_resume aw (world st)).
Qed.

Lemma suspension_fold (aw : Awaiter.t T E A) evs st s :
  suspension st = Some s ->
  s = registered \/ s = resume registered ->
  suspension (fold_left (fun st ev => deliver aw ev st) evs st)
  = Some (if existsb is_emit evs then resume registered else s).
Proof.
  revert st s. induction evs as [|ev evs IH]; intros st s Hs Hcase;
    [exact Hs|].
  destruct ev as [f|c].
  - simpl. by apply IH.
  - assert (Hs' : suspension (deliver aw (Emit c) st)
                  = Some (resume registered)).
    { rewrite (suspension_deliver_emit aw c st s Hs).
      destruct Hcase as [-> | ->];
        [by rewrite emit_registered|by rewrite emit_resumed]. }
    cbn [fold_left existsb is_emit orb].
    rewrite (IH _ _ Hs' (or_intror eq_refl)).
    by destruct (existsb is_emit evs).
Qed.

Lemma run_suspended (extract : @Fut.M T E A) w evs :
  isFinished (future w) || isCanceled (future w) = false ->
  suspension (Coroutine.run (Awaiter.derived extract) w evs)
  = Some (if existsb is_emit evs then resume registered else registered).
Proof.
  intros Hr. unfold Coroutine.run. rewrite (begin_not_ready extract w Hr).
  apply suspension_fold; [reflexivity|by left].
Qed.

(** A coroutine that was resumed was suspended, and its suspension state
    is the one a complete run of the lambda leaves. *)
Lemma resumed_after_teardown (extract : @Fut.M T E A) w evs :
  0 < resumptions (Coroutine.run (Awaiter.derived extract) w evs) ->
  suspension (Coroutine.run (Awaiter.derived extract) w evs)
  = Some (resume registered).
Proof.
  intros Hpos. unfold resumptions in Hpos.
  destruct (isFinished (future w) || isCanceled (future w)) eqn:Hr.
  - destruct (run_ready extract w evs Hr) as [Hnone _].
    rewrite Hnone in Hpos. lia.
  - rewrite (run_suspended extract w evs Hr) in Hpos |- *.
    destruct (existsb is_emit evs); [reflexivity|].
    by apply Nat.lt_irrefl in Hpos.
Qed.
End Sequential.

(** ** Exactly one resumption *)

(** C1, as amended.  For every future that is neither finished nor canceled
    when the await begins, the await suspends, and the awaiting coroutine is
    resumed exactly once as soon as the finished signal, the canceled signal
    or both are emitted, in any order and any number of times.  When the
    lambda is entered by any number of racing invocations, under every
    interleaving of their statements: [resume()] has never been called more
    than once; once all invocations have returned exactly one of them has
    won the compare-exchange, the shared state is what one run of the
    disconnect, dispose, resume sequence makes of it, and every other
    invocation has lost; a schedule after which all have returned exists for
    every number of invocations; and an invocation that finds the flag set
    returns at once, leaving the state exactly as it was. *)
Theorem resumed_exactly_once
  {T E A : Type} (extract : @Fut.M T E A) (w : QFuture.World T E) :
  QFuture.isFinished (QFuture.future w) = false ->
  QFuture.isCanceled (QFuture.future w) = false ->
  Coroutine.suspension (Coroutine.begin (Awaiter.derived extract) w)
  = Some WaitForFinishedOperationBase.registered
  /\ (forall evs : list (Coroutine.Event T E),
        existsb Coroutine.is_emit evs = true ->
        Coroutine.resumptions (Coroutine.run (Awaiter.derived extract) w evs)
        = 1)
  /\ (forall n sched,
        WaitForFinishedOperationBase.resume_count
          (Race.shared
             (Race.run sched
                (Race.start n WaitForFinishedOperationBase.registered)))
        <= 1)
  /\ (forall n sched,
        0 < n ->
        Race.all_returned
          (Race.run sched
             (Race.start n WaitForFinishedOperationBase.registered)) = true ->
        let c := Race.run sched
                   (Race.start n WaitForFinishedOperationBase.registered) in
        Race.winners c = 1
        /\ WaitForFinishedOperationBase.resume_count (Race.shared c) = 1
        /\ Race.shared c
           = WaitForFinishedOperationBase.resume
               WaitForFinishedOperationBase.registered
        /\ exists i, i < n
             /\ Race.threads c
                = <[i := Race.Returned true]>
                    (replicate n (Race.Returned false)))
  /\ (forall n,
        Race.all_returned
          (Race.run (Race.one_after_another n)
             (Race.start n WaitForFinishedOperationBase.registered)) = true)
  /\ (forall s,
        WaitForFinishedOperationBase.done s = true ->
        Race.step Race.AtCompareExchange s = (Race.Returned false, s)
        /\ WaitForFinishedOperationBase.resume s = s).
Proof.
  intros Hfin Hcan.
  assert (Hr : QFuture.isFinished (QFuture.future w)
               || QFuture.isCanceled (QFuture.future w) = false)
    by (by rewrite Hfin, Hcan).
  split; [by rewrite begin_not_ready|].
  split.
  { intros evs Hev. unfold Coroutine.resumptions.
    rewrite (run_suspended extract w evs Hr), Hev. reflexivity. }
  split.
  { intros n sched.
    exact (resumed_at_most_once n sched
             WaitForFinishedOperationBase.registered eq_refl). }
  split.
  { intros n sched Hn Hall c.
    destruct (race_final n sched WaitForFinishedOperationBase.registered
                eq_refl Hn Hall) as (Hs & i & Hi & Hthreads).
    fold c in Hs, Hthreads.
    split; [unfold Race.winners; rewrite Hthreads; by apply one_winner|].
    split; [by rewrite Hs|]. split; [exact Hs|].
    exists i. by split. }
  split; [intros n; apply one_after_another_returns|].
  intros s Hd. split; [by apply loser_step|].
  unfold WaitForFinishedOperationBase.resume.
  by rewrite compare_exchange_loses.
Qed.

Lemma resumed_exactly_once_witness :
  Coroutine.resumptions
    (QCoroFuture.result (Value nat (Some 0))
       (Examples.fresh Examples.pending)
       [Coroutine.Produce Examples.finished_42;
        Coroutine.Emit WaitForFinishedOperationBase.SigFinished;
        Coroutine.Emit WaitForFinishedOperationBase.SigCanceled]) = 1
  /\ Race.winners
       (Race.run [0; 1; 1; 0; 2; 0; 0; 0]
          (Race.start 3 WaitForFinishedOperationBase.registered)) = 1
  /\ WaitForFinishedOperationBase.resume
       (WaitForFinishedOperationBase.resume
          WaitForFinishedOperationBase.registered)
     = WaitForFinishedOperationBase.resume
         WaitForFinishedOperationBase.registered.
Proof.
  destruct (resumed_exactly_once
              (WaitForFinishedOperationImplT.await_resume (Some 0))
              (Examples.fresh Examples.pending) eq_refl eq_refl)
    as (_ & Hseq & _ & Hrace & _ & Hloser).
  split; [|split].
  - exact (Hseq [Coroutine.Produce Examples.finished_42;
                 Coroutine.Emit WaitForFinishedOperationBase.SigFinished;
                 Coroutine.Emit WaitForFinishedOperationBase.SigCanceled]
             eq_refl).
  - refine (proj1 (Hrace 3 [0; 1; 1; 0; 2; 0; 0; 0] _ eq_refl)). lia.
  - exact (proj2 (Hloser (WaitForFinishedOperationBase.resume
                            WaitForFinishedOperationBase.registered)
                    eq_refl)).
Defined.

(** C1 as stated fails: this future is not finished when the await begins,
    but it is canceled, so the ready-check is true, the coroutine never
    suspends, and however the signals fire nothing resumes it. *)
Lemma resumed_exactly_once_counterexample :
  QFuture.isFinished Examples.canceled_unfinished = false
  /\ Coroutine.suspended
       (QCoroFuture.result (Value nat (Some 0))
          (Examples.fresh Examples.canceled_unfinished)
          [Coroutine.Emit WaitForFinishedOperationBase.SigCanceled;
           Coroutine.Emit WaitForFinishedOperationBase.SigFinished]) = false
  /\ Coroutine.resumptions
       (QCoroFuture.result (Value nat (Some 0))
          (Examples.fresh Examples.canceled_unfinished)
          [Coroutine.Emit WaitForFinishedOperationBase.SigCanceled;
           Coroutine.Emit WaitForFinishedOperationBase.SigFinished]) = 0
  /\ Coroutine.resumptions
       (QCoroFuture.result (Value nat (Some 0))
          (Examples.fresh Examples.canceled_unfinished)
          [Coroutine.Emit WaitForFinishedOperationBase.SigCanceled;
           Coroutine.Emit WaitForFinishedOperationBase.SigFinished]) <> 1.
Proof.
  split; [reflexivity|]. split; [reflexivity|]. split; [reflexivity|].
  discriminate.
Qed.

(** ** Teardown before resumption *)

Section Teardown.
Import WaitForFinishedOperationBase Race.

Lemma resume_not_in_prefix k :
  k < 4 -> Resume ∉ effects registered ++ take k teardown_then_resume.
Proof.
  intros Hk Hin.
  do 4 (destruct k as [|k];
        [vm_compute in Hin;
         repeat (apply elem_of_cons in Hin as [Hin|Hin]; [discriminate|]);
         by apply elem_of_nil in Hin|]).
  lia.
Qed.
End Teardown.

(** C3.  In every await that suspends, teardown comes before resumption.
    One run of the lambda on the state [await_suspend] leaves disconnects
    the finished connection, disconnects the canceled connection, schedules
    the deletion of the watcher and only then calls [resume()].  Under every
    interleaving of any number of racing invocations the effects so far are
    a prefix of that sequence; whenever an invocation stands at the call of
    [resume()] or has made it, and whenever [resume()] has been called, both
    connections are disconnected and the deletion of the watcher is
    scheduled while the watcher itself is still allocated.  A coroutine that
    has been resumed finds its suspension state torn down in that way. *)
Theorem teardown_precedes_resume (n : nat) (sched : list nat) :
  let registered := WaitForFinishedOperationBase.registered in
  let torn_down (s : WaitForFinishedOperationBase.Suspension) :=
    WaitForFinishedOperationBase.finished s = false
    /\ WaitForFinishedOperationBase.canceled s = false
    /\ WaitForFinishedOperationBase.watcher_deleteLater s = true
    /\ WaitForFinishedOperationBase.watcher_alive s = true in
  let c := Race.run sched (Race.start n registered) in
  WaitForFinishedOperationBase.effects
    (WaitForFinishedOperationBase.resume registered)
  = WaitForFinishedOperationBase.effects registered
    ++ [WaitForFinishedOperationBase.Disconnect
          WaitForFinishedOperationBase.SigFinished;
        WaitForFinishedOperationBase.Disconnect
          WaitForFinishedOperationBase.SigCanceled;
        WaitForFinishedOperationBase.DeleteLater;
        WaitForFinishedOperationBase.Resume]
  /\ (exists k,
        WaitForFinishedOperationBase.effects (Race.shared c)
        = WaitForFinishedOperationBase.effects registered
          ++ take k Race.teardown_then_resume)
  /\ (forall i,
        Race.threads c !! i = Some Race.AtResume
        \/ Race.threads c !! i = Some (Race.Returned true) ->
        torn_down (Race.shared c))
  /\ (WaitForFinishedOperationBase.Resume
        ∈ WaitForFinishedOperationBase.effects (Race.shared c) ->
      torn_down (Race.shared c)
      /\ WaitForFinishedOperationBase.effects (Race.shared c)
         = WaitForFinishedOperationBase.effects registered
           ++ Race.teardown_then_resume)
  /\ (forall (T E A : Type) (extract : @Fut.M T E A) (w : QFuture.World T E)
             (evs : list (Coroutine.Event T E)),
        0 < Coroutine.resumptions
              (Coroutine.run (Awaiter.derived extract) w evs) ->
        exists s,
          Coroutine.suspension
            (Coroutine.run (Awaiter.derived extract) w evs) = Some s
          /\ torn_down s).
Proof.
  intros registered torn_down c.
  split; [reflexivity|].
  assert (Hd : WaitForFinishedOperationBase.done registered = false)
    by reflexivity.
  assert (Hlast : forall (T E A : Type) (extract : @Fut.M T E A)
                         (w : QFuture.World T E)
                         (evs : list (Coroutine.Event T E)),
             0 < Coroutine.resumptions
                   (Coroutine.run (Awaiter.derived extract) w evs) ->
             exists s,
               Coroutine.suspension
                 (Coroutine.run (Awaiter.derived extract) w evs) = Some s
               /\ torn_down s).
  { intros T E A extract w evs Hpos. eexists. split.
    - by apply resumed_after_teardown.
    - by vm_compute. }
  pose proof (invariant_reachable n sched registered Hd) as Hinv.
  fold c in Hinv.
  destruct Hinv as [[Hs Hall]|(i0 & p0 & k & Hi0 & Hp0 & Hs & Hothers)].
  - (* no invocation has run yet *)
    split; [exists 0; by rewrite Hs, app_nil_r|].
    split; [|split; [|exact Hlast]].
    + intros i Hi. rewrite Forall_lookup in Hall.
      destruct Hi as [Hi|Hi]; specialize (Hall i _ Hi); discriminate.
    + rewrite Hs. intros Hin.
      by destruct (resume_not_in_prefix 0 (Nat.lt_0_succ 3));
        rewrite app_nil_r.
  - (* one invocation has won and has run [k] statements *)
    split; [exists k; rewrite Hs; by apply effects_after|].
    split; [|split; [|exact Hlast]].
    + intros i Hi.
      assert (3 <= k) as Hk.
      { destruct (decide (i = i0)) as [->|Hne].
        - rewrite Hi0 in Hi.
          destruct Hi as [[= ->]|[= ->]]; simpl in Hp0;
            injection Hp0 as <-; lia.
        - destruct Hi as [Hi|Hi];
            destruct (Hothers i _ Hne Hi); discriminate. }
      rewrite Hs. exact (torn_down_after k registered Hd Hk).
    + rewrite Hs, effects_after by done. intros Hin.
      destruct (decide (k < 4)) as [Hlt|Hge];
        [by destruct (resume_not_in_prefix k Hlt)|].
      split; [apply (torn_down_after k registered Hd); lia|].
      by rewrite take_ge by (simpl; lia).
Qed.

Lemma teardown_precedes_resume_witness :
  WaitForFinishedOperationBase.finished
    (Race.shared
       (Race.run [1; 0; 1; 1; 1]
          (Race.start 2 WaitForFinishedOperationBase.registered))) = false
  /\ WaitForFinishedOperationBase.canceled
       (Race.shared
          (Race.run [1; 0; 1; 1; 1]
             (Race.start 2 WaitForFinishedOperationBase.registered))) = false
  /\ WaitForFinishedOperationBase.watcher_deleteLater
       (Race.shared
          (Race.run [1; 0; 1; 1; 1; 1]
             (Race.start 2 WaitForFinishedOperationBase.registered))) = true
  /\ (exists s,
        Coroutine.suspension
          (Coroutine.run
             (Awaiter.derived WaitForFinishedOperationImplVoid.await_resume)
             (Examples.fresh Examples.void_pending)
             [Coroutine.Produce Examples.void_failed;
              Coroutine.Emit WaitForFinishedOperationBase.SigCanceled])
        = Some s
        /\ WaitForFinishedOperationBase.finished s = false).
Proof.
  split; [|split; [|split]].
  - destruct (teardown_precedes_resume 2 [1; 0; 1; 1; 1])
      as (_ & _ & H & _).
    exact (proj1 (H 1 (or_introl eq_refl))).
  - destruct (teardown_precedes_resume 2 [1; 0; 1; 1; 1])
      as (_ & _ & H & _).
    exact (proj1 (proj2 (H 1 (or_introl eq_refl)))).
  - destruct (teardown_precedes_resume 2 [1; 0; 1; 1; 1; 1])
      as (_ & _ & _ & H & _).
    refine (proj1 (proj2 (proj2 (proj1 (H _))))).
    do 6 apply list_elem_of_further. apply list_elem_of_here.
  - destruct (teardown_precedes_resume 0 [])
      as (_ & _ & _ & _ & H).
    destruct (H unit string unit
                WaitForFinishedOperationImplVoid.await_resume
                (Examples.fresh Examples.void_pending)
                [Coroutine.Produce Examples.void_failed;
                 Coroutine.Emit WaitForFinishedOperationBase.SigCanceled])
      as (s & Hs & Hf & _).
    + vm_compute. lia.
    + exists s. split; [exact Hs|exact Hf].
Defined.

(** * Further properties of the adapter *)

(** ** A suspended await, event by event *)

Section FirstSignal.
Import QFuture WaitForFinishedOperationBase Coroutine.
Context {T E A : Type}.
Implicit Types (extract : @Fut.M T E A) (w : World T E).

Local Abbreviation step_all aw := (fold_left (fun st ev => deliver aw ev st)).

(** The calls the ready-check makes on a future that is not ready. *)
Lemma await_ready_calls w :
  isFinished (future w) = false ->
  snd (await_ready w)
  = MkWorld (future w) (calls w ++ [CallIsFinished; CallIsCanceled]).
Proof. intros Hfin. rewrite await_ready_spec; simpl. by rewrite Hfin. Qed.

Lemma quiet_fold (aw : Awaiter.t T E A) evs f cs :
  existsb is_emit evs = false ->
  step_all aw evs (MkState (MkWorld f cs) (Some registered) None)
  = MkState (MkWorld (Producer.latest f evs) cs) (Some registered) None.
Proof.
  revert f. induction evs as [|ev evs IH]; intros f Hq; [reflexivity|].
  destruct ev as [f'|c]; [|discriminate]. simpl in *. by apply IH.
Qed.

Lemma run_quiet extract w evs :
  isFinished (future w) = false ->
  isCanceled (future w) = false ->
  existsb is_emit evs = false ->
  Coroutine.run (Awaiter.derived extract) w evs
  = MkState
      (MkWorld (Producer.latest (future w) evs)
         (calls w ++ [CallIsFinished; CallIsCanceled]))
      (Some registered) None.
Proof.
  intros Hfin Hcan Hq. unfold Coroutine.run.
  rewrite begin_not_ready by (by rewrite Hfin, Hcan).
  rewrite await_ready_calls by done. by apply quiet_fold.
Qed.

Lemma deliver_first_signal extract c (w0 : World T E) :
  deliver (Awaiter.derived extract) (Emit c) (MkState w0 (Some registered) None)
  = MkState (snd (extract w0)) (Some (resume registered))
      (Some (fst (extract w0))).
Proof.
  unfold deliver; simpl. rewrite emit_registered.
  change (resume_count registered <? resume_count (resume registered))
    with true.
  by destruct (extract w0).
Qed.

Lemma settled_fold (aw : Awaiter.t T E A) post st :
  suspension st = Some (resume registered) ->
  suspension (step_all aw post st) = Some (resume registered)
  /\ outcome (step_all aw post st) = outcome st
  /\ calls (world (step_all aw post st)) = calls (world st)
  /\ future (world (step_all aw post st))
     = Producer.latest (future (world st)) post.
Proof.
  revert st. induction post as [|ev post IH]; intros st Hs; [done|].
  destruct ev as [f'|c].
  - exact (IH (MkState (MkWorld f' (calls (world st))) (suspension st)
                 (outcome st)) Hs).
  - assert (Hstep : deliver aw (Emit c) st
                    = MkState (world st) (Some (resume registered))
                        (outcome st)).
    { unfold deliver. rewrite Hs, emit_resumed.
      by rewrite Nat.ltb_irrefl. }
    change (step_all aw (Emit c :: post) st)
      with (step_all aw post (deliver aw (Emit c) st)).
    rewrite Hstep.
    exact (IH (MkState (world st) (Some (resume registered)) (outcome st))
             eq_refl).
Qed.

Lemma run_split (aw : Awaiter.t T E A) w pre c post :
  Coroutine.run aw w (pre ++ Emit c :: post)
  = step_all aw post (deliver aw (Emit c) (Coroutine.run aw w pre)).
Proof. unfold Coroutine.run. by rewrite fold_left_app. Qed.

(** The state of an await that suspended and then saw its first signal. *)
Lemma run_first_signal extract w pre c post :
  isFinished (future w) = false ->
  isCanceled (future w) = false ->
  existsb is_emit pre = false ->
  let at_signal :=
    MkWorld (Producer.latest (future w) pre)
      (calls w ++ [CallIsFinished; CallIsCanceled]) in
  let st := Coroutine.run (Awaiter.derived extract) w
              (pre ++ Emit c :: post) in
  suspension st = Some (resume registered)
  /\ outcome st = Some (fst (extract at_signal))
  /\ calls (world st) = calls (snd (extract at_signal))
  /\ future (world st)
     = Producer.latest (future (snd (extract at_signal))) post.
Proof.
  intros Hfin Hcan Hq at_signal st. subst st.
  rewrite run_split, (run_quiet extract w pre Hfin Hcan Hq).
  fold at_signal. rewrite deliver_first_signal.
  exact (settled_fold (Awaiter.derived extract) post
           (MkState (snd (extract at_signal)) (Some (resume registered))
              (Some (fst (extract at_signal)))) eq_refl).
Qed.
End FirstSignal.

(** A pending await is resumed by a signal and by nothing else.  For every
    future that is neither finished nor canceled when the await begins, as
    long as no signal is emitted the coroutine stays suspended whatever the
    producer does to the future: there is no outcome and no resumption, the
    latch is unset, both connections are live and the deletion of the
    watcher is not scheduled, and the adapter has made no call on the future
    beyond the two queries of the ready-check. *)
Theorem no_signal_no_resumption
  {T E A : Type} (extract : @Fut.M T E A) (w : QFuture.World T E)
  (evs : list (Coroutine.Event T E)) :
  QFuture.isFinished (QFuture.future w) = false ->
  QFuture.isCanceled (QFuture.future w) = false ->
  existsb Coroutine.is_emit evs = false ->
  let st := Coroutine.run (Awaiter.derived extract) w evs in
  Coroutine.outcome st = None
  /\ Coroutine.resumptions st = 0
  /\ Coroutine.world st
     = QFuture.MkWorld (Producer.latest (QFuture.future w) evs)
         (QFuture.calls w
          ++ [QFuture.CallIsFinished; QFuture.CallIsCanceled])
  /\ exists s,
       Coroutine.suspension st = Some s
       /\ WaitForFinishedOperationBase.done s = false
       /\ WaitForFinishedOperationBase.finished s = true
       /\ WaitForFinishedOperationBase.canceled s = true
       /\ WaitForFinishedOperationBase.watcher_deleteLater s = false.
Proof.
  intros Hfin Hcan Hq st. subst st.
  rewrite (run_quiet extract w evs Hfin Hcan Hq).
  split; [reflexivity|]. split; [reflexivity|]. split; [reflexivity|].
  eexists. split; [reflexivity|]. by vm_compute.
Qed.

Lemma no_signal_no_resumption_witness :
  Coroutine.outcome
    (QCoroFuture.result (Value nat (Some 0))
       (Examples.fresh Examples.pending)
       [Coroutine.Produce Examples.finished_7]) = None.
Proof.
  exact (proj1 (no_signal_no_resumption
                  (WaitForFinishedOperationImplT.await_resume (Some 0))
                  (Examples.fresh Examples.pending)
                  [Coroutine.Produce Examples.finished_7]
                  eq_refl eq_refl eq_refl)).
Defined.

(** The outcome of a suspended await is fixed at the first signal.  For
    every future that is neither finished nor canceled when the await
    begins, the first signal emitted, whichever it is, resumes the coroutine,
    and [await_resume] runs once, on the future as the producer has left it
    at that moment.  Nothing that happens afterwards matters: further
    signals and further changes of the future leave the outcome as it is,
    resume nothing, and cause no further call on the future. *)
Theorem outcome_fixed_at_first_signal
  {T E A : Type} (extract : @Fut.M T E A) (w : QFuture.World T E)
  (pre : list (Coroutine.Event T E)) (c : WaitForFinishedOperationBase.Channel)
  (post : list (Coroutine.Event T E)) :
  QFuture.isFinished (QFuture.future w) = false ->
  QFuture.isCanceled (QFuture.future w) = false ->
  existsb Coroutine.is_emit pre = false ->
  let at_signal :=
    QFuture.MkWorld (Producer.latest (QFuture.future w) pre)
      (QFuture.calls w ++ [QFuture.CallIsFinished; QFuture.CallIsCanceled]) in
  let st := Coroutine.run (Awaiter.derived extract) w
              (pre ++ Coroutine.Emit c :: post) in
  Coroutine.outcome st = Some (fst (extract at_signal))
  /\ Coroutine.resumptions st = 1
  /\ QFuture.calls (Coroutine.world st)
     = QFuture.calls (snd (extract at_signal))
  /\ QFuture.future (Coroutine.world st)
     = Producer.latest (QFuture.future (snd (extract at_signal))) post
  /\ Coroutine.outcome st
     = Coroutine.outcome
         (Coroutine.run (Awaiter.derived extract) w
            (pre ++ [Coroutine.Emit c])).
Proof.
  intros Hfin Hcan Hq at_signal st.
  destruct (run_first_signal extract w pre c post Hfin Hcan Hq)
    as (Hs & Ho & Hc & Hf).
  destruct (run_first_signal extract w pre c [] Hfin Hcan Hq)
    as (_ & Ho' & _).
  fold at_signal in Ho, Hc, Hf, Ho'. fold st in Hs, Ho, Hc, Hf.
  split; [exact Ho|]. split.
  { unfold Coroutine.resumptions. by rewrite Hs. }
  split; [exact Hc|]. split; [exact Hf|]. by rewrite Ho, Ho'.
Qed.

Lemma outcome_fixed_at_first_signal_witness :
  Coroutine.outcome
    (Coroutine.run
       (Awaiter.derived (WaitForFinishedOperationImplT.await_resume (Some 0)))
       (Examples.fresh Examples.pending)
       ([Coroutine.Produce Examples.finished_7]
        ++ Coroutine.Emit WaitForFinishedOperationBase.SigFinished
           :: [Coroutine.Produce Examples.finished_42;
               Coroutine.Emit WaitForFinishedOperationBase.SigCanceled]))
  = Some (Returns 7).
Proof.
  exact (proj1 (outcome_fixed_at_first_signal
                  (WaitForFinishedOperationImplT.await_resume (Some 0))
                  (Examples.fresh Examples.pending)
                  [Coroutine.Produce Examples.finished_7]
                  WaitForFinishedOperationBase.SigFinished
                  [Coroutine.Produce Examples.finished_42;
                   Coroutine.Emit WaitForFinishedOperationBase.SigCanceled]
                  eq_refl eq_refl eq_refl)).
Defined.

(** ** The entry points, from suspension to outcome *)

(** What [result()] and [waitForFinished()] give for a non-void [T] when
    the await suspends.  The future is neither finished nor canceled when
    the await begins; the producer then changes it, a first signal is
    emitted, and anything may follow.  The coroutine is resumed once and its
    outcome is decided by the future as it is at the first signal: not
    finished (canceled before finishing), the default value or
    InvalidOrCanceled, even when a result arrives later; finished with a
    recorded failure, that failure; finished with a result in slot 0, that
    result; finished with neither, ResultNotReady.  [takeResult()], where it
    exists, gives the same outcome. *)
Theorem result_of_suspended_await
  {T E : Type} (default : option T) (w : QFuture.World T E)
  (pre : list (Coroutine.Event T E)) (c : WaitForFinishedOperationBase.Channel)
  (post : list (Coroutine.Event T E)) :
  QFuture.isFinished (QFuture.future w) = false ->
  QFuture.isCanceled (QFuture.future w) = false ->
  existsb Coroutine.is_emit pre = false ->
  let f := Producer.latest (QFuture.future w) pre in
  let evs := pre ++ Coroutine.Emit c :: post in
  let st := @QCoroFuture.result E (Value T default) w evs in
  Coroutine.resumptions st = 1
  /\ (QFuture.isFinished f = false ->
      Coroutine.outcome st = Some (fallback default))
  /\ (QFuture.isFinished f = true ->
      forall e, QFuture.recorded_failure f = Some e ->
        Coroutine.outcome st = Some (Throws (stored e)))
  /\ (QFuture.isFinished f = true ->
      forall v, QFuture.slot f 0 = Some v ->
        Coroutine.outcome st = Some (Returns v))
  /\ (QFuture.isFinished f = true ->
      QFuture.recorded_failure f = None ->
      QFuture.isResultReadyAt f 0 = false ->
      Coroutine.outcome st = Some (Throws ResultNotReady))
  /\ (forall qt task,
        @QCoroFuture.takeResult E qt (Value T default) = Some task ->
        Coroutine.outcome (task w evs) = Coroutine.outcome st).
Proof.
  intros Hfin Hcan Hq f evs st.
  destruct (run_first_signal
              (WaitForFinishedOperationImplT.await_resume default)
              w pre c post Hfin Hcan Hq) as (Hs & Ho & _).
  destruct (run_first_signal
              (TakeResultOperation.await_resume default)
              w pre c post Hfin Hcan Hq) as (_ & Hot & _).
  rewrite copy_await_resume_spec in Ho. rewrite take_await_resume_spec in Hot.
  simpl in Ho, Hot. fold f in Ho, Hot.
  assert (Hres : Coroutine.resumptions st = 1).
  { unfold Coroutine.resumptions.
    exact (@eq_ind_r _ (Some (WaitForFinishedOperationBase.resume
                                WaitForFinishedOperationBase.registered))
             (fun o => match o with
                       | Some s => WaitForFinishedOperationBase.resume_count s
                       | None => 0
                       end = 1) eq_refl _ Hs). }
  assert (Htake : forall qt task,
             @QCoroFuture.takeResult E qt (Value T default) = Some task ->
             Coroutine.outcome (task w evs) = Coroutine.outcome st).
  { intros qt task Htask. unfold QCoroFuture.takeResult in Htask.
    destruct (6 <=? qt); [|discriminate]. injection Htask as <-.
    etransitivity; [exact Hot|]. etransitivity; [|symmetry; exact Ho].
    destruct (QFuture.isFinished f); [|reflexivity].
    destruct (QFuture.store f) as [slots|e]; [|reflexivity].
    by destruct (slots !! 0). }
  unfold QFuture.recorded_failure, QFuture.isResultReadyAt, QFuture.slot.
  split; [exact Hres|].
  destruct (QFuture.isFinished f); simpl in Ho.
  - destruct (QFuture.store f) as [slots|e]; simpl in Ho.
    + destruct (slots !! 0) as [v|] eqn:Hv; simpl in Ho.
      * split; [done|]. split; [done|]. split; [|done].
        intros _ v' Hv'. injection Hv' as <-. exact Ho.
      * split; [done|]. split; [done|]. split; [done|]. split; [|exact Htake].
        intros _ _ _. exact Ho.
    + split; [done|]. split; [|done].
      intros _ e' He'. injection He' as <-. exact Ho.
  - split; [intros _; exact Ho|]. done.
Qed.

Lemma result_of_suspended_await_witness :
  Coroutine.outcome
    (QCoroFuture.result (Value nat (Some 0))
       (Examples.fresh Examples.pending)
       ([Coroutine.Produce Examples.canceled_unfinished]
        ++ Coroutine.Emit WaitForFinishedOperationBase.SigCanceled
           :: [Coroutine.Produce Examples.finished_42;
               Coroutine.Emit WaitForFinishedOperationBase.SigFinished]))
  = Some (Returns 0)
  /\ Coroutine.outcome
       (QCoroFuture.result (Value nat (Some 0))
          (Examples.fresh Examples.pending)
          ([Coroutine.Produce Examples.finished_7]
           ++ Coroutine.Emit WaitForFinishedOperationBase.SigFinished :: []))
     = Some (Returns 7)
  /\ Coroutine.outcome
       (QCoroFuture.result (Value nat None)
          (Examples.fresh Examples.pending)
          ([Coroutine.Produce Examples.finished_failed]
           ++ Coroutine.Emit WaitForFinishedOperationBase.SigCanceled :: []))
     = Some (Throws (stored "boom"%string))
  /\ Coroutine.outcome
       (QCoroFuture.result (Value nat None)
          (Examples.fresh Examples.pending)
          ([Coroutine.Produce Examples.finished_empty]
           ++ Coroutine.Emit WaitForFinishedOperationBase.SigFinished :: []))
     = Some (Throws ResultNotReady)
  /\ Coroutine.outcome
       (Coroutine.run (TakeResultOperation.awaiter (E:=string) (Some 0))
          (Examples.fresh Examples.pending)
          ([Coroutine.Produce Examples.finished_7]
           ++ Coroutine.Emit WaitForFinishedOperationBase.SigFinished :: []))
     = Some (Returns 7).
Proof.
  split; [|split; [|split; [|split]]].
  5: { destruct (result_of_suspended_await (E:=string) (Some 0)
                  (Examples.fresh Examples.pending)
                  [Coroutine.Produce Examples.finished_7]
                  WaitForFinishedOperationBase.SigFinished []
                  eq_refl eq_refl eq_refl) as (_ & _ & _ & _ & _ & H).
       exact (H 6 _ eq_refl). }
  - destruct (result_of_suspended_await (E:=string) (Some 0)
                (Examples.fresh Examples.pending)
                [Coroutine.Produce Examples.canceled_unfinished]
                WaitForFinishedOperationBase.SigCanceled
                [Coroutine.Produce Examples.finished_42;
                 Coroutine.Emit WaitForFinishedOperationBase.SigFinished]
                eq_refl eq_refl eq_refl) as (_ & H & _).
    exact (H eq_refl).
  - destruct (result_of_suspended_await (E:=string) (Some 0)
                (Examples.fresh Examples.pending)
                [Coroutine.Produce Examples.finished_7]
                WaitForFinishedOperationBase.SigFinished []
                eq_refl eq_refl eq_refl) as (_ & _ & _ & H & _).
    exact (H eq_refl 7 eq_refl).
  - destruct (result_of_suspended_await (E:=string) None
                (Examples.fresh Examples.pending)
                [Coroutine.Produce Examples.finished_failed]
                WaitForFinishedOperationBase.SigCanceled []
                eq_refl eq_refl eq_refl) as (_ & _ & H & _).
    exact (H eq_refl "boom"%string eq_refl).
  - destruct (result_of_suspended_await (E:=string) None
                (Examples.fresh Examples.pending)
                [Coroutine.Produce Examples.finished_empty]
                WaitForFinishedOperationBase.SigFinished []
                eq_refl eq_refl eq_refl) as (_ & _ & _ & _ & H & _).
    exact (H eq_refl eq_refl eq_refl).
Defined.

(** What [waitForFinished()] gives for a void future when the await
    suspends: the coroutine is resumed once by the first signal, and on the
    future as it is then the recorded failure is re-raised when the future
    is finished with one; in every other case, finished without a failure or
    not finished at all, the await returns normally. *)
Theorem void_of_suspended_await
  {E : Type} (w : QFuture.World unit E)
  (pre : list (Coroutine.Event unit E))
  (c : WaitForFinishedOperationBase.Channel)
  (post : list (Coroutine.Event unit E)) :
  QFuture.isFinished (QFuture.future w) = false ->
  QFuture.isCanceled (QFuture.future w) = false ->
  existsb Coroutine.is_emit pre = false ->
  let f := Producer.latest (QFuture.future w) pre in
  let st := @QCoroFuture.waitForFinished E Void w
              (pre ++ Coroutine.Emit c :: post) in
  Coroutine.resumptions st = 1
  /\ (QFuture.isFinished f = true ->
      forall e, QFuture.recorded_failure f = Some e ->
        Coroutine.outcome st = Some (Throws (stored e)))
  /\ (QFuture.isFinished f = true ->
      QFuture.recorded_failure f = None ->
      Coroutine.outcome st = Some (Returns tt))
  /\ (QFuture.isFinished f = false ->
      Coroutine.outcome st = Some (Returns tt)).
Proof.
  intros Hfin Hcan Hq f st.
  destruct (run_first_signal WaitForFinishedOperationImplVoid.await_resume
              w pre c post Hfin Hcan Hq) as (Hs & Ho & _).
  rewrite void_await_resume_spec in Ho. simpl in Ho. fold f in Ho.
  split.
  { unfold Coroutine.resumptions.
    exact (@eq_ind_r _ (Some (WaitForFinishedOperationBase.resume
                                WaitForFinishedOperationBase.registered))
             (fun o => match o with
                       | Some s => WaitForFinishedOperationBase.resume_count s
                       | None => 0
                       end = 1) eq_refl _ Hs). }
  destruct (QFuture.isFinished f); simpl in Ho.
  - destruct (QFuture.recorded_failure f) as [e|].
    + split; [|done]. intros _ e' He'. injection He' as <-. exact Ho.
    + split; [done|]. split; [|done]. intros _ _. exact Ho.
  - split; [done|]. split; [done|]. intros _. exact Ho.
Qed.

Lemma void_of_suspended_await_witness :
  Coroutine.outcome
    (QCoroFuture.waitForFinished Void
       (Examples.fresh Examples.void_pending)
       ([Coroutine.Produce Examples.void_failed]
        ++ Coroutine.Emit WaitForFinishedOperationBase.SigCanceled
           :: [Coroutine.Emit WaitForFinishedOperationBase.SigFinished]))
  = Some (Throws (stored "boom"%string))
  /\ Coroutine.outcome
       (QCoroFuture.waitForFinished Void
          (Examples.fresh Examples.void_pending)
          ([Coroutine.Produce Examples.void_finished]
           ++ Coroutine.Emit WaitForFinishedOperationBase.SigFinished :: []))
     = Some (Returns tt)
  /\ Coroutine.outcome
       (QCoroFuture.waitForFinished Void
          (Examples.fresh Examples.void_pending)
          ([Coroutine.Produce Examples.void_canceled]
           ++ Coroutine.Emit WaitForFinishedOperationBase.SigCanceled :: []))
     = Some (Returns tt).
Proof.
  split; [|split].
  - destruct (void_of_suspended_await (Examples.fresh Examples.void_pending)
                [Coroutine.Produce Examples.void_failed]
                WaitForFinishedOperationBase.SigCanceled
                [Coroutine.Emit WaitForFinishedOperationBase.SigFinished]
                eq_refl eq_refl eq_refl) as (_ & H & _).
    exact (H eq_refl "boom"%string eq_refl).
  - destruct (void_of_suspended_await (Examples.fresh Examples.void_pending)
                [Coroutine.Produce Examples.void_finished]
                WaitForFinishedOperationBase.SigFinished []
                eq_refl eq_refl eq_refl) as (_ & _ & H & _).
    exact (H eq_refl eq_refl).
  - destruct (void_of_suspended_await (Examples.fresh Examples.void_pending)
                [Coroutine.Produce Examples.void_canceled]
                WaitForFinishedOperationBase.SigCanceled []
                eq_refl eq_refl eq_refl) as (_ & _ & _ & H).
    exact (H eq_refl).
Defined.

(** ** Extraction and the contract of the future *)

(** No extraction leaves the contract of the future.  Whatever the state of
    the future, each variant of [await_resume] either returns or throws: it
    never blocks and never reads a result that is not there.  The
    synchronization call [waitForFinished] is made only on a future that
    reports finished, and the accessors [result] and [takeResult] only on a
    finished future whose slot 0 is populated; the copy-result and void
    variants never call [takeResult], and the void variant calls no
    accessor at all. *)
Theorem extraction_stays_in_contract
  {T E : Type} (default : option T)
  (w : QFuture.World T E) (wv : QFuture.World unit E) :
  let ready (f : QFuture.t T E) :=
    QFuture.isFinished f = true /\ QFuture.isResultReadyAt f 0 = true in
  (forall r,
      r = WaitForFinishedOperationImplT.await_resume default w
      \/ r = TakeResultOperation.await_resume default w ->
      fst r <> Blocks /\ fst r <> Undefined
      /\ exists made,
           QFuture.calls (snd r) = QFuture.calls w ++ made
           /\ (In QFuture.CallWaitForFinished made ->
               QFuture.isFinished (QFuture.future w) = true)
           /\ (In QFuture.CallResult made \/ In QFuture.CallTakeResult made ->
               ready (QFuture.future w)))
  /\ (exists made,
        QFuture.calls
          (snd (WaitForFinishedOperationImplT.await_resume default w))
        = QFuture.calls w ++ made
        /\ ~ In QFuture.CallTakeResult made)
  /\ fst (WaitForFinishedOperationImplVoid.await_resume wv) <> Blocks
  /\ fst (WaitForFinishedOperationImplVoid.await_resume wv) <> Undefined
  /\ exists made,
       QFuture.calls (snd (WaitForFinishedOperationImplVoid.await_resume wv))
       = QFuture.calls wv ++ made
       /\ (In QFuture.CallWaitForFinished made ->
           QFuture.isFinished (QFuture.future wv) = true)
       /\ ~ In QFuture.CallResult made
       /\ ~ In QFuture.CallTakeResult made.
Proof.
  intros ready. subst ready. cbv beta.
  rewrite take_await_resume_spec, copy_await_resume_spec,
    void_await_resume_spec; simpl.
  unfold QFuture.isResultReadyAt, QFuture.slot.
  split; [|split].
  - intros r Hr.
    destruct (QFuture.isFinished (QFuture.future w)); simpl in *.
    + destruct (QFuture.store (QFuture.future w)) as [slots|e]; simpl in *.
      * destruct (slots !! 0) as [v|]; simpl in *;
          destruct Hr as [-> | ->]; simpl;
          (split; [discriminate|]); (split; [discriminate|]);
          eexists; (split; [reflexivity|]); simpl; split; try done;
          intuition discriminate.
      * destruct Hr as [-> | ->]; simpl;
          (split; [discriminate|]); (split; [discriminate|]);
          eexists; (split; [reflexivity|]); simpl; split; try done;
          intuition discriminate.
    + destruct Hr as [-> | ->]; simpl;
        (split; [by destruct default|]); (split; [by destruct default|]);
        eexists; (split; [reflexivity|]); simpl; intuition discriminate.
  - destruct (QFuture.isFinished (QFuture.future w)); simpl.
    + destruct (QFuture.store (QFuture.future w)) as [slots|e]; simpl.
      * destruct (slots !! 0) as [v|]; simpl;
          eexists; (split; [reflexivity|]); simpl; intuition discriminate.
      * eexists; (split; [reflexivity|]); simpl; intuition discriminate.
    + eexists; (split; [reflexivity|]); simpl; intuition discriminate.
  - destruct (QFuture.isFinished (QFuture.future wv)); simpl.
    + split; [by destruct (QFuture.recorded_failure (QFuture.future wv))|].
      split; [by destruct (QFuture.recorded_failure (QFuture.future wv))|].
      eexists; (split; [reflexivity|]); simpl; intuition discriminate.
    + split; [discriminate|]. split; [discriminate|].
      eexists; (split; [reflexivity|]); simpl; intuition discriminate.
Qed.

Lemma extraction_stays_in_contract_witness :
  fst (TakeResultOperation.await_resume (Some 0)
         (Examples.fresh Examples.pending)) <> Blocks
  /\ fst (WaitForFinishedOperationImplT.await_resume None
            (Examples.fresh Examples.finished_empty)) <> Undefined.
Proof.
  split.
  - destruct (extraction_stays_in_contract (Some 0)
                (Examples.fresh Examples.pending)
                (Examples.fresh Examples.void_pending)) as (H & _).
    exact (proj1 (H _ (or_intror eq_refl))).
  - destruct (extraction_stays_in_contract None
                (Examples.fresh Examples.finished_empty)
                (Examples.fresh Examples.void_pending)) as (H & _).
    exact (proj1 (proj2 (H _ (or_introl eq_refl)))).
Defined.

(** Copying can be repeated, taking cannot.  Copy-result extraction leaves
    the future such that extracting again, by either variant, gives the same
    outcome.  Move-result extraction that took a result out of a finished
    future leaves it finished without a result: extracting again, by either
    variant, throws ResultNotReady.  When move-result extraction took
    nothing (the future was not finished, or had no result), extracting
    again gives the same outcome as before. *)
Theorem take_consumes_copy_repeats
  {T E : Type} (default : option T) (w : QFuture.World T E) :
  let f := QFuture.future w in
  let copied := WaitForFinishedOperationImplT.await_resume default w in
  let taken := TakeResultOperation.await_resume default w in
  fst (WaitForFinishedOperationImplT.await_resume default (snd copied))
  = fst copied
  /\ fst (TakeResultOperation.await_resume default (snd copied)) = fst copied
  /\ (QFuture.isFinished f = true ->
      forall v, QFuture.slot f 0 = Some v ->
        fst taken = Returns v
        /\ fst (TakeResultOperation.await_resume default (snd taken))
           = Throws ResultNotReady
        /\ fst (WaitForFinishedOperationImplT.await_resume default (snd taken))
           = Throws ResultNotReady)
  /\ (QFuture.isFinished f && QFuture.isResultReadyAt f 0 = false ->
      fst (TakeResultOperation.await_resume default (snd taken)) = fst taken).
Proof.
  intros f copied taken. subst f copied taken.
  rewrite (take_await_resume_spec default w),
    (copy_await_resume_spec default w); simpl.
  unfold QFuture.isResultReadyAt, QFuture.slot.
  destruct (QFuture.isFinished (QFuture.future w)) eqn:Hfin; simpl.
  - destruct (QFuture.store (QFuture.future w)) as [slots|e] eqn:Hst; simpl.
    + destruct (slots !! 0) as [v|] eqn:Hv; simpl;
        rewrite !take_await_resume_spec, !copy_await_resume_spec; simpl;
        rewrite ?Hfin, ?Hst, ?Hv, ?lookup_delete_eq; simpl.
      * split; [done|]. split; [done|]. split; [|done].
        intros _ v' Hv'. by injection Hv' as <-.
      * done.
    + rewrite !take_await_resume_spec, !copy_await_resume_spec; simpl.
      rewrite Hfin, Hst. done.
  - rewrite !take_await_resume_spec, !copy_await_resume_spec; simpl.
    rewrite Hfin. done.
Qed.

Lemma take_consumes_copy_repeats_witness :
  fst (TakeResultOperation.await_resume (Some 0)
         (snd (TakeResultOperation.await_resume (Some 0)
                 (Examples.fresh Examples.finished_42))))
  = Throws ResultNotReady
  /\ fst (TakeResultOperation.await_resume (Some 0)
            (snd (TakeResultOperation.await_resume (Some 0)
                    (Examples.fresh Examples.canceled_unfinished))))
     = Returns 0.
Proof.
  split.
  - destruct (take_consumes_copy_repeats (Some 0)
                (Examples.fresh Examples.finished_42)) as (_ & _ & H & _).
    exact (proj1 (proj2 (H eq_refl 42 eq_refl))).
  - destruct (take_consumes_copy_repeats (Some 0)
                (Examples.fresh Examples.canceled_unfinished))
      as (_ & _ & _ & H).
    exact (H eq_refl).
Defined.

(** ** Invocations after the latch has fired *)

Section LateInvocations.
Import WaitForFinishedOperationBase Race Latch.

Lemma late_schedule s i c :
  done s = true ->
  shared c = s /\ Forall idle (threads c) ->
  shared (schedule i c) = s /\ Forall idle (threads (schedule i c)).
Proof.
  intros Hd [Hs Hidle]. unfold schedule.
  destruct (threads c !! i) as [p|] eqn:Hi; [|done].
  assert (Hstep : step p (shared c) = (Returned false, shared c)).
  { rewrite Forall_lookup in Hidle. destruct (Hidle i p Hi) as [-> | ->];
      [apply loser_step; by rewrite Hs|reflexivity]. }
  rewrite Hstep; simpl. split; [exact Hs|].
  apply Forall_insert; [exact Hidle|by right].
Qed.

Lemma late_run s sched c :
  done s = true ->
  shared c = s /\ Forall idle (threads c) ->
  shared (run sched c) = s /\ Forall idle (threads (run sched c)).
Proof.
  intros Hd. revert c. induction sched as [|i sched IH]; intros c Hc;
    simpl; [exact Hc|].
  apply IH. by apply late_schedule.
Qed.

Lemma idle_has_not_won (l : list pc) :
  Forall idle l -> List.filter has_won l = [].
Proof.
  induction 1 as [|p l [-> | ->] _ IH]; simpl; [done|exact IH|exact IH].
Qed.
End LateInvocations.

(** Once the latch has fired, invocations of the lambda do nothing.  From
    any state in which the flag [done] is set, and for any number of
    invocations under any interleaving, the shared state never changes: no
    connection is touched, nothing is scheduled for deletion and the
    coroutine is not resumed again; no invocation wins, and the invocations
    that have run have all returned as losers.  In particular this holds of
    the state a complete run of the lambda leaves behind. *)
Theorem late_invocations_do_nothing
  (s : WaitForFinishedOperationBase.Suspension) (n : nat) (sched : list nat) :
  WaitForFinishedOperationBase.done s = true ->
  let c := Race.run sched (Race.start n s) in
  Race.shared c = s
  /\ Race.winners c = 0
  /\ Forall Latch.idle (Race.threads c)
  /\ (Race.all_returned c = true ->
      Race.threads c = replicate n (Race.Returned false))
  /\ (forall s' : WaitForFinishedOperationBase.Suspension,
        WaitForFinishedOperationBase.done
          (WaitForFinishedOperationBase.resume s') = true).
Proof.
  intros Hd c.
  assert (Hstart : Race.shared (Race.start n s) = s
                   /\ Forall Latch.idle (Race.threads (Race.start n s))).
  { split; [reflexivity|]. simpl. apply Forall_forall. intros p Hp.
    apply elem_of_replicate in Hp as [-> _]. by left. }
  destruct (late_run s sched _ Hd Hstart) as [Hs Hidle]. fold c in Hs, Hidle.
  split; [exact Hs|].
  split; [unfold Race.winners; by rewrite idle_has_not_won|].
  split; [exact Hidle|]. split.
  2: { intros s'. unfold WaitForFinishedOperationBase.resume,
         WaitForFinishedOperationBase.compare_exchange_strong.
       by destruct (WaitForFinishedOperationBase.done s') eqn:Hd'. }
  intros Hall. unfold Race.all_returned in Hall.
  rewrite forallb_forall in Hall.
  pose proof (length_run sched (Race.start n s)) as Hlen.
  simpl in Hlen. rewrite length_replicate in Hlen. fold c in Hlen.
  apply list_eq. intros j.
  destruct (Race.threads c !! j) as [q|] eqn:Hq.
  - pose proof (lookup_lt_Some _ _ _ Hq) as Hj.
    rewrite lookup_replicate_2 by lia.
    rewrite Forall_lookup in Hidle.
    assert (Hret : Race.returned q = true).
    { apply Hall, list_elem_of_In, list_elem_of_lookup. by exists j. }
    destruct (Hidle j q Hq) as [-> | ->]; [discriminate|done].
  - symmetry. apply lookup_replicate_None.
    apply lookup_ge_None in Hq. lia.
Qed.

Lemma late_invocations_do_nothing_witness :
  Race.shared
    (Race.run [0; 1; 1; 0]
       (Race.start 2
          (WaitForFinishedOperationBase.resume
             WaitForFinishedOperationBase.registered)))
  = WaitForFinishedOperationBase.resume
      WaitForFinishedOperationBase.registered
  /\ Race.threads
       (Race.run [0; 1; 1; 0]
          (Race.start 2
             (WaitForFinishedOperationBase.resume
                WaitForFinishedOperationBase.registered)))
     = replicate 2 (Race.Returned false).
Proof.
  destruct (late_invocations_do_nothing
              (WaitForFinishedOperationBase.resume
                 WaitForFinishedOperationBase.registered)
              2 [0; 1; 1; 0] eq_refl) as (Hs & _ & _ & Hthreads & _).
  split; [exact Hs|exact (Hthreads eq_refl)].
Defined.
